(** * MIDI processing utilities: a shallow embedding of
      [src/services/midiProcessor.js]

    The module converts parsed MIDI data into ABC notation text, into a
    VexFlow note array and into a display summary.  The embedding follows
    the JavaScript source function by function:

    - JavaScript numbers that the code compares or subtracts ([time],
      [duration] of a note) are rationals [Q] with exact arithmetic.  The
      thresholds [0.25], [0.5], [1], [2] are dyadic, so the comparisons
      of the source and the comparisons on [Q] agree on every finite
      number; [NaN] and the infinities are not values of the model.
    - Where the code multiplies ([duration * 100] of the summary), the
      rational stands for the double nearest to it and the product is
      the product of IEEE 754 double precision, rounded to nearest even
      ([SpecFloat] with 53 bits of precision).
    - [parseInt] of a run of digits is the exact natural number.
    - A number is printed only after [Math.round(x * 100) / 100]; the
      printed text is the decimal expansion with at most two decimals
      that [Number::toString] gives for the durations of MIDI files.
    - An exception thrown inside a function is [None]; a [try]/[catch]
      block is a [match] on the option.
    - [null] as the argument of an exported function is [None] of the
      argument's option type; an absent (undefined) field of an object
      literal is [None] of the field's option type.
    - The object literal [noteMap] keeps JavaScript's property lookup:
      own properties first, then the properties every object inherits
      from [Object.prototype].
    - Arrays that the code copies and sorts in place live in an explicit
      store of arrays (section "Store model"). *)

From Stdlib Require Import QArith Qround String Ascii DecimalString List.
From Stdlib Require Import Sorted Permutation Lia Lqa.
From Stdlib Require SpecFloat.
From stdpp Require Import gmap strings list option.

(** ** Strings *)

(** The line feed character, written [\n] in the source. *)
Definition LF : string := String (ascii_of_nat 10) EmptyString.

(** [\d] of a JavaScript regular expression without the unicode flag. *)
Definition isDigit (c : ascii) : bool :=
  let n := nat_of_ascii c in (48 <=? n)%nat && (n <=? 57)%nat.

(** The capital letters [A] to [Z]: a note name begins with the capital
    letter of its pitch. *)
Definition isUpperLetter (c : ascii) : bool :=
  let n := nat_of_ascii c in (65 <=? n)%nat && (n <=? 90)%nat.

(** The longest prefix of digits, and what follows it. *)
Fixpoint takeDigits (s : string) : string :=
  match s with
  | EmptyString => EmptyString
  | String c rest => if isDigit c then String c (takeDigits rest) else EmptyString
  end.

Fixpoint dropDigits (s : string) : string :=
  match s with
  | EmptyString => EmptyString
  | String c rest => if isDigit c then dropDigits rest else s
  end.

(** [s.match(/\d+/)?.[0]]: the first maximal run of digits, [None] when
    the string has no digit ([match] returns [null], [?.] gives
    [undefined]). *)
Fixpoint matchDigits (s : string) : option string :=
  match s with
  | EmptyString => None
  | String c rest =>
      if isDigit c then Some (String c (takeDigits rest)) else matchDigits rest
  end.

(** [s.replace(/\d+/, '')]: the regular expression is not global, only the
    first run of digits is removed. *)
Fixpoint removeDigits (s : string) : string :=
  match s with
  | EmptyString => EmptyString
  | String c rest =>
      if isDigit c then dropDigits rest else String c (removeDigits rest)
  end.

(** [s.replace(/(\d+)/, '/$1')]: a slash is put before the first run of
    digits. *)
Fixpoint slashDigits (s : string) : string :=
  match s with
  | EmptyString => EmptyString
  | String c rest =>
      if isDigit c then String "/" s else String c (slashDigits rest)
  end.

Definition digitValue (c : ascii) : nat := nat_of_ascii c - 48.

(** [parseInt] on a run of decimal digits (radix 10). *)
Definition parseInt (digits : string) : nat :=
  fold_left (fun acc c => 10 * acc + digitValue c) (list_ascii_of_string digits) 0.

Definition lowerChar (c : ascii) : ascii :=
  let n := nat_of_ascii c in
  if (65 <=? n)%nat && (n <=? 90)%nat then ascii_of_nat (n + 32) else c.

(** [String.prototype.toLowerCase] on the ASCII range, the only range of
    the strings it is applied to here. *)
Fixpoint toLowerCase (s : string) : string :=
  match s with
  | EmptyString => EmptyString
  | String c rest => String (lowerChar c) (toLowerCase rest)
  end.

(** [s] repeated [n] times: the loops that append one mark per octave. *)
Fixpoint repeatString (s : string) (n : nat) : string :=
  match n with
  | O => EmptyString
  | S k => s +:+ repeatString s k
  end.

(** ** Numbers *)

(** [x < y] on numbers. *)
Definition Qlt_bool (x y : Q) : bool := negb (Qle_bool y x).

(** [Math.round]: the nearest integer, a tie goes up. *)
Definition Math_round (x : Q) : Z := Qfloor (x + (1 # 2)).

Definition digitString (d : Z) : string :=
  NilZero.string_of_uint (N.to_uint (Z.to_N d)).

(** [Number::toString] on a number with at most two decimals, given as a
    count [k] of hundredths: no trailing zero, no decimal point for an
    integer, and the sign of zero is not shown. *)
Definition hundredthsToString (k : Z) : string :=
  let a := Z.abs k in
  let whole := (a / 100)%Z in
  let frac := (a mod 100)%Z in
  (if (k <? 0)%Z then "-" else "") +:+
  digitString whole +:+
  (if (frac =? 0)%Z then ""
   else "." +:+ digitString (frac / 10)%Z +:+
        (if (frac mod 10 =? 0)%Z then "" else digitString (frac mod 10)%Z)).

(** ** Data model *)

(** A note as [parseMidiBlob] builds it. *)
Record Note := mkNote {
  note_name : string;
  note_midi : Z;
  note_time : Q;
  note_duration : Q;
  note_velocity : Q
}.

Record Instrument := mkInstrument {
  instrument_name : string
}.

Record Track := mkTrack {
  track_name : option string;
  track_instrument : option Instrument;
  track_notes : list Note
}.

(** Parsed MIDI data.  The source guards [name] with [||] and [tracks]
    with [&&], and the objects of the repository's tests come without
    [duration]: each of the three may be absent. *)
Record MidiData := mkMidiData {
  midi_name : option string;
  midi_duration : option Q;
  midi_tracks : option (list Track)
}.

(** ** Property lookup on the note table *)

(** The value of an expression that is used as a string: a string, an
    object that is not a string (with the text it converts to), or
    [undefined]. *)
Inductive Value :=
| VString (s : string)
| VObject (text : string)
| VUndefined.

(** The own properties of the object literal [noteMap]. *)
Definition noteMap : gmap string string :=
  list_to_map
    [("C", "C"); ("C#", "^C"); ("D", "D"); ("D#", "^D"); ("E", "E");
     ("F", "F"); ("F#", "^F"); ("G", "G"); ("G#", "^G"); ("A", "A");
     ("A#", "^A"); ("B", "B")].

(** The text a built-in function converts to (as V8 prints it; the exact
    text is the engine's). *)
Definition nativeFunction (f : string) : string :=
  "function " +:+ f +:+ "() { [native code] }".

(** The properties an object literal inherits from [Object.prototype],
    each with the text the inherited value converts to. *)
Definition Object_prototype : gmap string string :=
  list_to_map
    [("constructor", nativeFunction "Object");
     ("hasOwnProperty", nativeFunction "hasOwnProperty");
     ("isPrototypeOf", nativeFunction "isPrototypeOf");
     ("propertyIsEnumerable", nativeFunction "propertyIsEnumerable");
     ("toLocaleString", nativeFunction "toLocaleString");
     ("toString", nativeFunction "toString");
     ("valueOf", nativeFunction "valueOf");
     ("__defineGetter__", nativeFunction "__defineGetter__");
     ("__defineSetter__", nativeFunction "__defineSetter__");
     ("__lookupGetter__", nativeFunction "__lookupGetter__");
     ("__lookupSetter__", nativeFunction "__lookupSetter__");
     ("__proto__", "[object Object]")].

(** [noteMap[key]]. *)
Definition noteMap_get (key : string) : Value :=
  match noteMap !! key with
  | Some v => VString v
  | None =>
      match Object_prototype !! key with
      | Some text => VObject text
      | None => VUndefined
      end
  end.

(** [v || fallback] where [fallback] is a string. *)
Definition orElse (v : Value) (fallback : string) : Value :=
  match v with
  | VString "" => VString fallback
  | VUndefined => VString fallback
  | _ => v
  end.

(** [v.toLowerCase()]: only a string has the method, the call on
    anything else throws a TypeError. *)
Definition callToLowerCase (v : Value) : option string :=
  match v with
  | VString s => Some (toLowerCase s)
  | _ => None
  end.

(** The string a value becomes when [+=] appends a string to it. *)
Definition toText (v : Value) : string :=
  match v with
  | VString s => s
  | VObject text => text
  | VUndefined => "undefined"
  end.

(** ** convertNoteToABC *)

(** [parseInt(note.name.match(/\d+/)?.[0]) || 4]: [parseInt] of
    [undefined] is [NaN], and both [NaN] and [0] are falsy. *)
Definition octaveOf (name : string) : nat :=
  match matchDigits name with
  | Some digits => let n := parseInt digits in if (n =? 0)%nat then 4 else n
  | None => 4
  end.

(** The duration suffix appended at the end of [convertNoteToABC]. *)
Definition abcDuration (duration : Q) : string :=
  if Qlt_bool duration (1 # 4) then "/4"
  else if Qlt_bool duration (1 # 2) then "/2"
  else if Qlt_bool duration 1 then ""
  else if Qlt_bool duration 2 then "2"
  else "4".

(** The pitch letter with its octave marks: [convertNoteToABC] up to the
    duration mapping.  [None] when [toLowerCase] is called on a value
    that is not a string. *)
Definition abcPitch (name : string) : option string :=
  let noteName := removeDigits name in
  let octave := octaveOf name in
  let abcNote := orElse (noteMap_get noteName) "C" in
  if (5 <=? octave)%nat then
    lowered ← callToLowerCase abcNote;
    Some (lowered +:+ repeatString "'" (octave - 5))
  else if (octave <? 4)%nat then
    Some (toText abcNote +:+ repeatString "," (4 - octave))
  else
    Some (toText abcNote).

Definition convertNoteToABC (note : Note) : option string :=
  abcNote ← abcPitch (note_name note);
  Some (abcNote +:+ abcDuration (note_duration note)).

(** ** Shapes of pitch names *)

(** Every character of [s] is a digit, or none is. *)
Fixpoint allDigits (s : string) : bool :=
  match s with
  | EmptyString => true
  | String c rest => isDigit c && allDigits rest
  end.

Fixpoint noDigits (s : string) : bool :=
  match s with
  | EmptyString => true
  | String c rest => negb (isDigit c) && noDigits rest
  end.

(** The pitch with the octave marks the source gives to octave [octave]:
    the three branches of "Handle octaves" on a string. *)
Definition withOctaveMarks (abcNote : string) (octave : nat) : string :=
  if (5 <=? octave)%nat then toLowerCase abcNote +:+ repeatString "'" (octave - 5)
  else if (octave <? 4)%nat then abcNote +:+ repeatString "," (4 - octave)
  else abcNote.

(** ** Sorting *)

(** The comparator [(a, b) => a.time - b.time]. *)
Definition compareFn (a b : Note) : Q := note_time a - note_time b.

(** [Array.prototype.sort] with a comparator: the sort is stable (ECMAScript
    2019), so for a consistent comparator its result is the one of any
    stable sort; here insertion from the right.  [x] goes before the first
    element it does not compare greater than. *)
Fixpoint insertSorted {A} (cmp : A -> A -> Q) (x : A) (l : list A) : list A :=
  match l with
  | [] => [x]
  | y :: rest =>
      if Qle_bool (cmp x y) 0 then x :: l else y :: insertSorted cmp x rest
  end.

Definition Array_sort {A} (cmp : A -> A -> Q) (l : list A) : list A :=
  fold_right (insertSorted cmp) [] l.

(** A comparator of the shape [(a, b) => key(a) - key(b)], as [compareFn]
    is for the key [time], and the test that an element has the key [q]. *)
Definition byKey {A} (key : A -> Q) (a b : A) : Q := key a - key b.

Definition sameKey {A} (key : A -> Q) (q : Q) (a : A) : bool :=
  Qeq_bool (key a) q.

(** ** convertMidiToABC *)

Definition abcHeader (title : string) : string :=
  "X:1" +:+ LF +:+ "T:" +:+ title +:+ LF +:+ "M:4/4" +:+ LF +:+ "L:1/4" +:+ LF +:+
  "K:C" +:+ LF.

(** [name || 'Transcribed Audio']: an absent and an empty name are both
    falsy. *)
Definition nameOrDefault (name : option string) : string :=
  match name with
  | Some "" => "Transcribed Audio"
  | Some s => s
  | None => "Transcribed Audio"
  end.

(** The callback of [sortedNotes.forEach((note, index) => ...)], run from
    [index] on over the remaining notes; [abcNotation] is the variable the
    callback appends to, [len] is [sortedNotes.length].  An exception of
    [convertNoteToABC] leaves the loop. *)
Fixpoint forEachNote (notes : list Note) (len index : nat)
    (abcNotation : string) : option string :=
  match notes with
  | [] => Some abcNotation
  | note :: rest =>
      abcNote ← convertNoteToABC note;
      let abcNotation := abcNotation +:+ abcNote in
      let abcNotation :=
        if (index <? len - 1)%nat then abcNotation +:+ " " else abcNotation in
      let abcNotation :=
        if ((index + 1) mod 8 =? 0)%nat then abcNotation +:+ LF
        else abcNotation in
      forEachNote rest len (S index) abcNotation
  end.

(** The body of the [try] block. *)
Definition convertMidiToABC_try (arg : option MidiData) : option string :=
  midiData ← arg;
  let abcNotation := abcHeader (nameOrDefault (midi_name midiData)) in
  match midi_tracks midiData with
  | Some (firstTrack :: _) =>
      let sortedNotes := Array_sort compareFn (track_notes firstTrack) in
      forEachNote sortedNotes (length sortedNotes) 0 abcNotation
  | _ => Some abcNotation
  end.

Definition abcFallback : string :=
  "X:1" +:+ LF +:+ "T:Error" +:+ LF +:+ "M:4/4" +:+ LF +:+ "L:1/4" +:+ LF +:+
  "K:C" +:+ LF +:+ "z4".

Definition convertMidiToABC (arg : option MidiData) : string :=
  match convertMidiToABC_try arg with
  | Some abcNotation => abcNotation
  | None => abcFallback
  end.

(** The token layout in the specification's words: the tokens are
    separated by a single space, and a line break is inserted after every
    8th token, not after the final token.  [index] is the position of the
    first token of [tokens] in the whole sequence. *)
Fixpoint spec_tokenLayout (index : nat) (tokens : list string) : string :=
  match tokens with
  | [] => ""
  | [token] => token
  | token :: rest =>
      token +:+ " " +:+
      (if ((index + 1) mod 8 =? 0)%nat then LF else "") +:+
      spec_tokenLayout (S index) rest
  end.

(** The note body that [forEachNote] appends for the tokens of the sorted
    notes (lemma [forEachNote_layout]): the specification's layout, and
    one more line break when the number of tokens is a positive multiple
    of eight. *)
Definition tokenBody (tokens : list string) : string :=
  spec_tokenLayout 0 tokens +:+
  match tokens with
  | [] => ""
  | _ => if (length tokens mod 8 =? 0)%nat then LF else ""
  end.

(** ** convertMidiToVexFlow *)

Record VexFlowNote := mkVexFlowNote {
  vf_keys : list string;
  vf_duration : string;
  vf_midi : Z;
  vf_time : Q
}.

(** The duration mapping inside the [forEach] callback. *)
Definition vexFlowDuration (duration : Q) : string :=
  if Qlt_bool duration (1 # 4) then "16"
  else if Qlt_bool duration (1 # 2) then "8"
  else if Qlt_bool duration 1 then "q"
  else if Qlt_bool duration 2 then "h"
  else "w".

Definition vexFlowNote (note : Note) : VexFlowNote :=
  {| vf_keys := [slashDigits (note_name note)];
     vf_duration := vexFlowDuration (note_duration note);
     vf_midi := note_midi note;
     vf_time := note_time note |}.

(** [sortedNotes.forEach(note => ... vexFlowNotes.push(vexFlowNote))]. *)
Definition pushEach (sortedNotes : list Note) (vexFlowNotes : list VexFlowNote)
    : list VexFlowNote :=
  fold_left (fun acc note => acc ++ [vexFlowNote note]) sortedNotes vexFlowNotes.

Definition convertMidiToVexFlow_try (arg : option MidiData)
    : option (list VexFlowNote) :=
  midiData ← arg;
  let vexFlowNotes := [] in
  match midi_tracks midiData with
  | Some (firstTrack :: _) =>
      let sortedNotes := Array_sort compareFn (track_notes firstTrack) in
      Some (pushEach sortedNotes vexFlowNotes)
  | _ => Some vexFlowNotes
  end.

Definition convertMidiToVexFlow (arg : option MidiData) : list VexFlowNote :=
  match convertMidiToVexFlow_try arg with
  | Some vexFlowNotes => vexFlowNotes
  | None => []
  end.

(** ** getMidiSummary *)

Record Summary := mkSummary {
  summary_name : string;
  summary_duration : string;
  summary_tracks : nat;
  summary_totalNotes : nat;
  summary_instruments : string
}.

(** [track.instrument?.name || 'Piano']. *)
Definition instrumentLabel (track : Track) : string :=
  match track_instrument track with
  | Some instrument =>
      match instrument_name instrument with
      | "" => "Piano"
      | s => s
      end
  | None => "Piano"
  end.

(** The double nearest to a rational: the quotient of numerator and
    denominator in double precision (53 bits, exponents below 1024),
    rounded to nearest, ties to even. *)
Definition numberOfQ (q : Q) : SpecFloat.spec_float :=
  SpecFloat.SFdiv 53 1024
    match Qnum q with
    | Z0 => SpecFloat.S754_zero false
    | Zpos n => SpecFloat.S754_finite false n 0
    | Zneg n => SpecFloat.S754_finite true n 0
    end
    (SpecFloat.S754_finite false (Qden q) 0).

(** The exact value of a double, [None] for [NaN] and the infinities. *)
Definition valueOfNumber (x : SpecFloat.spec_float) : option Q :=
  match x with
  | SpecFloat.S754_zero _ => Some 0%Q
  | SpecFloat.S754_finite s m e =>
      Some (inject_Z (if s then Zneg m else Zpos m) * Qpower 2 e)%Q
  | _ => None
  end.

(** [duration * 100]: the product of two doubles, rounded to a double. *)
Definition times100 (duration : Q) : SpecFloat.spec_float :=
  SpecFloat.SFmul 53 1024 (numberOfQ duration) (numberOfQ 100).

(** [Math.round(duration * 100) / 100] put into a template string.  An
    absent duration is [undefined], the arithmetic gives [NaN].  The
    product is the product of doubles; it is rounded to the nearest
    integer exactly, and the rounded number is kept as its count of
    hundredths.  A product that overflows stays infinite. *)
Definition durationText (duration : option Q) : string :=
  match duration with
  | Some d =>
      match valueOfNumber (times100 d) with
      | Some product => hundredthsToString (Math_round product)
      | None =>
          match times100 d with
          | SpecFloat.S754_infinity false => "Infinity"
          | SpecFloat.S754_infinity true => "-Infinity"
          | _ => "NaN"
          end
      end
  | None => "NaN"
  end.

(** [Array.prototype.join]. *)
Fixpoint join (sep : string) (l : list string) : string :=
  match l with
  | [] => ""
  | [x] => x
  | x :: rest => x +:+ sep +:+ join sep rest
  end.

Definition getMidiSummary_try (arg : option MidiData) : option Summary :=
  midiData ← arg;
  tracks ← midi_tracks midiData;
  let totalNotes :=
    fold_left (fun sum track => sum + length (track_notes track))%nat tracks 0%nat in
  let trackCount := length tracks in
  Some {| summary_name := nameOrDefault (midi_name midiData);
          summary_duration := durationText (midi_duration midiData) +:+ " seconds";
          summary_tracks := trackCount;
          summary_totalNotes := totalNotes;
          summary_instruments := join ", " (map instrumentLabel tracks) |}.

Definition defaultSummary : Summary :=
  {| summary_name := "Unknown";
     summary_duration := "0 seconds";
     summary_tracks := 0;
     summary_totalNotes := 0;
     summary_instruments := "Unknown" |}.

Definition getMidiSummary (arg : option MidiData) : Summary :=
  match getMidiSummary_try arg with
  | Some summary => summary
  | None => defaultSummary
  end.

(** ** Store model: arrays as mutable objects

    [track.notes] is a reference to an array object; [[...array]] makes
    a new array object with the same elements and [sort] reorders the
    array it is called on, in place.  The store maps array references to
    their contents.  The other objects (the MIDI data object, the tracks)
    are only read by the encoders and stay values. *)

Record TrackRef := mkTrackRef {
  tref_name : option string;
  tref_instrument : option Instrument;
  tref_notes : positive
}.

Record MidiRef := mkMidiRef {
  mref_name : option string;
  mref_duration : option Q;
  mref_tracks : option (list TrackRef)
}.

(** A computation on the store that may throw: the store it leaves is
    kept also when it throws. *)
Definition Eff (A : Type) : Type :=
  gmap positive (list Note) -> option A * gmap positive (list Note).

Definition eff_ret {A} (a : A) : Eff A := fun σ => (Some a, σ).

Definition eff_throw {A} : Eff A := fun σ => (None, σ).

Definition eff_bind {A B} (e : Eff A) (k : A -> Eff B) : Eff B :=
  fun σ =>
    match e σ with
    | (Some a, σ') => k a σ'
    | (None, σ') => (None, σ')
    end.

Notation "'do' x <- e ; k" := (eff_bind e (fun x => k))
  (at level 10, x name, e at level 100, k at level 200).

(** A pure computation that may throw. *)
Definition eff_lift {A} (o : option A) : Eff A :=
  match o with
  | Some a => eff_ret a
  | None => eff_throw
  end.

(** Reading the elements of an array; a reference to nothing is
    [undefined], iterating it throws. *)
Definition readArray (ref : positive) : Eff (list Note) :=
  fun σ => (σ !! ref, σ).

(** [[...array]]: a new array object with the elements of [array]. *)
Definition spread (ref : positive) : Eff positive :=
  do notes <- readArray ref;
  fun σ => let copy := fresh (dom σ) in (Some copy, <[copy := notes]> σ).

(** [array.sort(cmp)]: sorts [array] in place and returns it. *)
Definition sortInPlace (cmp : Note -> Note -> Q) (ref : positive) : Eff positive :=
  do notes <- readArray ref;
  fun σ => (Some ref, <[ref := Array_sort cmp notes]> σ).

(** [try { body } catch (error) { return handler }]. *)
Definition tryCatch {A} (body : Eff A) (handler : A)
    : gmap positive (list Note) -> A * gmap positive (list Note) :=
  fun σ =>
    match body σ with
    | (Some a, σ') => (a, σ')
    | (None, σ') => (handler, σ')
    end.

Definition convertMidiToABC_eff (arg : option MidiRef) : Eff string :=
  do midiData <- eff_lift arg;
  let abcNotation := abcHeader (nameOrDefault (mref_name midiData)) in
  match mref_tracks midiData with
  | Some (firstTrack :: _) =>
      do copy <- spread (tref_notes firstTrack);
      do sortedNotes <- sortInPlace compareFn copy;
      do notes <- readArray sortedNotes;
      eff_lift (forEachNote notes (length notes) 0 abcNotation)
  | _ => eff_ret abcNotation
  end.

Definition convertMidiToABC_store (arg : option MidiRef) :=
  tryCatch (convertMidiToABC_eff arg) abcFallback.

Definition convertMidiToVexFlow_eff (arg : option MidiRef) : Eff (list VexFlowNote) :=
  do midiData <- eff_lift arg;
  let vexFlowNotes := [] in
  match mref_tracks midiData with
  | Some (firstTrack :: _) =>
      do copy <- spread (tref_notes firstTrack);
      do sortedNotes <- sortInPlace compareFn copy;
      do notes <- readArray sortedNotes;
      eff_ret (pushEach notes vexFlowNotes)
  | _ => eff_ret vexFlowNotes
  end.

Definition convertMidiToVexFlow_store (arg : option MidiRef) :=
  tryCatch (convertMidiToVexFlow_eff arg) [].

(** The MIDI data a reference model stands for in a store: every track
    with the elements of its notes array. *)
Definition resolveTrack (σ : gmap positive (list Note)) (t : TrackRef)
    : option Track :=
  notes ← σ !! tref_notes t;
  Some (mkTrack (tref_name t) (tref_instrument t) notes).

Definition resolve (σ : gmap positive (list Note)) (m : MidiRef)
    : option MidiData :=
  match mref_tracks m with
  | Some tracks =>
      resolved ← mapM (resolveTrack σ) tracks;
      Some (mkMidiData (mref_name m) (mref_duration m) (Some resolved))
  | None => Some (mkMidiData (mref_name m) (mref_duration m) None)
  end.

(** ** Test data *)

Definition testNote (name : string) (duration : Q) : Note :=
  mkNote name 60 0 duration (4 # 5).

(** The data of the repository's own tests. *)
Definition testTrack (notes : list Note) : Track := mkTrack None None notes.

Definition twoNotes : MidiData :=
  mkMidiData (Some "Test Song") None
    (Some [testTrack [mkNote "C4" 60 0 (1 # 2) (4 # 5);
                      mkNote "D4" 62 (1 # 2) (1 # 2) (7 # 10)]]).

Definition summaryExample : MidiData :=
  mkMidiData (Some "Test Song") (Some (4567 # 1000))
    (Some [mkTrack None (Some (mkInstrument "Piano"))
             [testNote "C4" (1 # 2); testNote "D4" (1 # 2)];
           mkTrack None (Some (mkInstrument "Guitar")) [testNote "E4" (1 # 2)]]).

(** Eight quarter notes on the beat, one second apart. *)
Definition eightNotes : MidiData :=
  mkMidiData (Some "Scale") (Some 8%Q)
    (Some [testTrack
             (map (fun i => mkNote "C4" 60 (inject_Z (Z.of_nat i)) (1 # 2) (4 # 5))
                  (seq 0 8))]).

Definition emptySong : MidiData := mkMidiData (Some "Empty Song") None (Some []).

(** Four notes, two pairs with equal onset, not in chronological order. *)
Definition tiedNotes : MidiData :=
  mkMidiData (Some "Ties") (Some 2%Q)
    (Some [testTrack [mkNote "G4" 67 1 (1 # 2) (4 # 5);
                      mkNote "C4" 60 0 (1 # 2) (4 # 5);
                      mkNote "E4" 64 1 (1 # 2) (4 # 5);
                      mkNote "D4" 62 0 (1 # 2) (4 # 5)]]).


(** A MIDI data object without [tracks]. *)
Definition noTracks : MidiData :=
  mkMidiData (Some "Song") (Some (4567 # 1000)) None.

(** The track of [tiedNotes] with its notes array at reference 1 of a
    store that holds nothing else. *)
Definition tiedStore : gmap positive (list Note) :=
  {[ 1%positive := [mkNote "G4" 67 1 (1 # 2) (4 # 5);
                    mkNote "C4" 60 0 (1 # 2) (4 # 5);
                    mkNote "E4" 64 1 (1 # 2) (4 # 5);
                    mkNote "D4" 62 0 (1 # 2) (4 # 5)] ]}.

Definition tiedRef : MidiRef :=
  mkMidiRef (Some "Ties") (Some 2%Q) (Some [mkTrackRef None None 1%positive]).

(** * The API service ([src/services/apiService.js])

    A promise is modelled by what it settles to.  File names and the
    other strings are ASCII text. *)

(** What a promise settles to: a value, or a rejection with the message
    of its error. *)
Inductive Settled (A : Type) : Type :=
| Resolved (a : A)
| Rejected (message : string).

Arguments Resolved {A} a.
Arguments Rejected {A} message.

(** The bytes of a [Blob]. *)
Definition Blob : Type := string.

(** A [File]: its name and its size in bytes. *)
Record File := mkFile {
  file_name : string;
  file_size : N
}.

(** ** Splitting at dots *)

(** [s.split('.')]: the segments between the dots; never empty. *)
Fixpoint splitDot (s : string) : list string :=
  match s with
  | EmptyString => [EmptyString]
  | String c rest =>
      if (c =? ".")%char then EmptyString :: splitDot rest
      else match splitDot rest with
           | segment :: segments => String c segment :: segments
           | [] => [String c EmptyString]
           end
  end.

Fixpoint noDot (s : string) : bool :=
  match s with
  | EmptyString => true
  | String c rest => negb (c =? ".")%char && noDot rest
  end.

(** The value of [array.pop()]: the last element, [None] (undefined) for
    an empty array. *)
Fixpoint pop {A} (array : list A) : option A :=
  match array with
  | [] => None
  | [x] => Some x
  | _ :: rest => pop rest
  end.

(** [array.includes(x)] on an array of strings. *)
Definition includes (x : string) (array : list string) : bool :=
  existsb (String.eqb x) array.

(** ** getSupportedFormats *)

Record Formats := mkFormats {
  supported_formats : list string;
  max_file_size_mb : Q
}.

(** [fetched] is what [fetch] settles to: the response, given by what its
    [json()] settles to. *)
Definition getSupportedFormats (fetched : Settled (Settled Formats)) : Formats :=
  match fetched with
  | Resolved (Resolved data) => data
  | _ => mkFormats ["wav"; "mp3"; "flac"; "m4a"] 50
  end.

(** ** isValidAudioFile *)

(** [maxSizeMB] is [None] when the argument is left out; the parameter
    then takes its default. *)
Definition isValidAudioFile (file : option File) (supportedFormats : list string)
    (maxSizeMB : option Q) : bool :=
  let maxSizeMB := match maxSizeMB with Some x => x | None => 50%Q end in
  match file with
  | None => false
  | Some file =>
      let extension := option_map toLowerCase (pop (splitDot (file_name file))) in
      match extension with
      | None => false
      | Some EmptyString => false
      | Some extension =>
          if negb (includes extension supportedFormats) then false
          else
            let fileSizeMB := (inject_Z (Z.of_N (file_size file)) / (1024 * 1024))%Q in
            if Qlt_bool maxSizeMB fileSizeMB then false else true
      end
  end.

(** ** transcribeAudio *)

(** The response of [/transcribe], as far as the code reads it: [ok], what
    [blob()] settles to, and what [json()] settles to, given by the
    [error] field of the body ([None] when the body has none). *)
Record TranscribeResponse := mkTranscribeResponse {
  response_ok : bool;
  response_blob : Settled Blob;
  response_json : Settled (option string)
}.

(** The object [transcribeAudio] resolves to: with [success: true] it has
    [midiFile] and [filename], with [success: false] it has [error]. *)
Inductive TranscribeResult :=
| Success (midiFile : Blob) (filename : string)
| Failure (error : string).

(** [x || fallback] on strings. *)
Definition stringOr (x fallback : string) : string :=
  match x with
  | EmptyString => fallback
  | _ => x
  end.

(** [`${audioFile.name.split('.')[0]}.mid`]. *)
Definition midiFilenameOf (audioFile : File) : string :=
  match splitDot (file_name audioFile) with
  | first :: _ => first +:+ ".mid"
  | [] => "undefined.mid"
  end.

Definition transcribeAudio (audioFile : File) (fetched : Settled TranscribeResponse)
    : TranscribeResult :=
  let caught message := Failure (stringOr message "Network error occurred") in
  match fetched with
  | Rejected message => caught message
  | Resolved response =>
      if response_ok response then
        match response_blob response with
        | Resolved midiBlob => Success midiBlob (midiFilenameOf audioFile)
        | Rejected message => caught message
        end
      else
        match response_json response with
        | Resolved (Some error) => Failure (stringOr error "Transcription failed")
        | Resolved None => Failure "Transcription failed"
        | Rejected message => caught message
        end
  end.

(** ** getErrorMessage *)

(** The own properties of the object literal [errorMessages]. *)
Definition errorMessages : gmap string string :=
  list_to_map
    [("File too large", "Please select a smaller audio file (max 50MB)");
     ("File type not supported", "Please use WAV, MP3, FLAC, or M4A files");
     ("Internal server error", "Transcription service unavailable. Please try again.");
     ("No audio file provided", "Please select an audio file first");
     ("Network error occurred", "Unable to connect to the transcription service")].

(** [errorMessages[key]], with the inherited properties. *)
Definition errorMessages_get (key : string) : Value :=
  match errorMessages !! key with
  | Some v => VString v
  | None =>
      match Object_prototype !! key with
      | Some text => VObject text
      | None => VUndefined
      end
  end.

Definition getErrorMessage (error : string) : Value :=
  orElse (errorMessages_get error) "An unexpected error occurred. Please try again.".

(** ** checkBackendHealth *)

(** The response of [/health]: [ok], and what [json()] settles to, given
    by the [status] field of the body. *)
Record HealthResponse := mkHealthResponse {
  health_ok : bool;
  health_json : Settled (option string)
}.

(** The second [fetch] in the [catch] block only logs; its outcome does
    not reach the result. *)
Definition checkBackendHealth (fetched : Settled HealthResponse) : bool :=
  match fetched with
  | Resolved response =>
      if negb (health_ok response) then false
      else
        match health_json response with
        | Resolved (Some status) => String.eqb status "healthy"
        | Resolved None => false
        | Rejected _ => false
        end
  | Rejected _ => false
  end.

(** * parseMidiBlob

    [decoded] is the object that [new Midi(arrayBuffer)] of the MIDI
    library builds from the blob, [None] when reading or decoding throws.
    The function copies the fields it keeps into new objects; any
    exception is replaced by one error. *)

Definition copyNote (note : Note) : Note :=
  {| note_name := note_name note;
     note_midi := note_midi note;
     note_time := note_time note;
     note_duration := note_duration note;
     note_velocity := note_velocity note |}.

Definition copyTrack (track : Track) : Track :=
  {| track_name := track_name track;
     track_instrument := track_instrument track;
     track_notes := map copyNote (track_notes track) |}.

Definition parseMidiBlob (decoded : option MidiData) : Settled MidiData :=
  match decoded with
  | Some midi =>
      match midi_tracks midi with
      | Some tracks =>
          Resolved {| midi_name := midi_name midi;
                      midi_duration := midi_duration midi;
                      midi_tracks := Some (map copyTrack tracks) |}
      | None => Rejected "Failed to parse MIDI file"
      end
  | None => Rejected "Failed to parse MIDI file"
  end.

(** * The application component ([src/App.jsx])

    The state variables of [App] are the fields of a record; an event
    handler is the function from the state before it runs to the state
    after all its updates, given what the requests it awaits settle to. *)

Record AppState := mkAppState {
  st_isTranscribing : bool;
  st_midiData : option MidiData;
  st_midiSummary : option Summary;
  st_midiBlob : option Blob;
  st_midiFilename : string;
  st_error : Value;
  st_currentFile : option File
}.

(** The initial values of the [useState] calls. *)
Definition initialAppState : AppState :=
  mkAppState false None None None "" (VString "") None.

(** Whether a value is truthy. *)
Definition truthy (v : Value) : bool :=
  match v with
  | VString EmptyString => false
  | VUndefined => false
  | _ => true
  end.

(** [handleFileUpload]: [fetched] is what the request of
    [transcribeAudio] settles to, [decode] is the MIDI library's decoder
    on a blob. *)
Definition handleFileUpload (file : File) (fetched : Settled TranscribeResponse)
    (decode : Blob -> option MidiData) (s : AppState) : AppState :=
  let s := mkAppState true None None (st_midiBlob s) (st_midiFilename s)
             (VString "") (Some file) in
  let s :=
    match transcribeAudio file fetched with
    | Success midiFile filename =>
        let s := mkAppState (st_isTranscribing s) (st_midiData s) (st_midiSummary s)
                   (Some midiFile) filename (st_error s) (st_currentFile s) in
        match parseMidiBlob (decode midiFile) with
        | Resolved parsedMidi =>
            let summary := getMidiSummary (Some parsedMidi) in
            mkAppState (st_isTranscribing s) (Some parsedMidi) (Some summary)
              (st_midiBlob s) (st_midiFilename s) (st_error s) (st_currentFile s)
        | Rejected message =>
            mkAppState (st_isTranscribing s) (st_midiData s) (st_midiSummary s)
              (st_midiBlob s) (st_midiFilename s) (getErrorMessage message)
              (st_currentFile s)
        end
    | Failure error =>
        mkAppState (st_isTranscribing s) (st_midiData s) (st_midiSummary s)
          (st_midiBlob s) (st_midiFilename s) (getErrorMessage error)
          (st_currentFile s)
    end in
  mkAppState false (st_midiData s) (st_midiSummary s) (st_midiBlob s)
    (st_midiFilename s) (st_error s) (st_currentFile s).

(** [handleDownload]: the call of [downloadMidiFile] it makes, if any. *)
Definition handleDownload (s : AppState) : option (Blob * string) :=
  match st_midiBlob s, st_midiFilename s with
  | Some midiBlob, String c rest => Some (midiBlob, String c rest)
  | _, _ => None
  end.

Definition handleReset (s : AppState) : AppState :=
  mkAppState (st_isTranscribing s) None None None "" (VString "") None.

(** * The backend status component *)

(** [checkStatus]: the status it sets. *)
Definition checkStatus (fetched : Settled HealthResponse) : string :=
  if checkBackendHealth fetched then "online" else "offline".

Definition getStatusText (status : string) : string :=
  if String.eqb status "online" then "Backend Online"
  else if String.eqb status "offline" then "Backend Offline"
  else "Checking Status...".

(** * The VexFlow viewer *)

(** The argument of [new StaveNote(...)]. *)
Record StaveNoteSpec := mkStaveNoteSpec {
  sn_clef : string;
  sn_keys : list string;
  sn_duration : string
}.

(** The callback of [vexFlowData.slice(0, 8).map(...)]. *)
Definition staveNoteOf (noteData : VexFlowNote) : StaveNoteSpec :=
  let keys :=
    match vf_keys noteData with
    | EmptyString :: _ => ["c/4"]
    | key :: _ => [toLowerCase key]
    | [] => ["c/4"]
    end in
  let duration := stringOr (vf_duration noteData) "q" in
  {| sn_clef := "treble"; sn_keys := keys; sn_duration := duration |}.

Definition staveNotes (vexFlowData : list VexFlowNote) : list StaveNoteSpec :=
  map staveNoteOf (firstn 8 vexFlowData).

(** * Properties *)

(** ** The cases of the repository's tests *)

Example convertNoteToABC_C4 :
  convertNoteToABC (testNote "C4" (1 # 2)) = Some "C".
Proof. vm_compute. reflexivity. Qed.

Example convertNoteToABC_Cs5 :
  convertNoteToABC (testNote "C#5" (1 # 2)) = Some "^c".
Proof. vm_compute. reflexivity. Qed.

Example convertNoteToABC_short :
  convertNoteToABC (testNote "C4" (1 # 5)) = Some "C/4".
Proof. vm_compute. reflexivity. Qed.

Example convertNoteToABC_long :
  convertNoteToABC (testNote "C4" 2) = Some "C4".
Proof. vm_compute. reflexivity. Qed.

Example convertNoteToABC_octaves :
  convertNoteToABC (testNote "C3" (1 # 2)) = Some "C," /\
  convertNoteToABC (testNote "C6" (1 # 2)) = Some "c'".
Proof. vm_compute. split; reflexivity. Qed.

Example convertMidiToABC_twoNotes :
  convertMidiToABC (Some twoNotes) = abcHeader "Test Song" +:+ "C D".
Proof. vm_compute. reflexivity. Qed.

Example convertMidiToVexFlow_twoNotes :
  convertMidiToVexFlow (Some twoNotes) =
  [mkVexFlowNote ["C/4"] "q" 60 0; mkVexFlowNote ["D/4"] "q" 62 (1 # 2)].
Proof. vm_compute. reflexivity. Qed.

Example hundredthsToString_examples :
  hundredthsToString 457 = "4.57" /\ hundredthsToString 250 = "2.5" /\
  hundredthsToString 300 = "3" /\ hundredthsToString 5 = "0.05" /\
  hundredthsToString 0 = "0" /\ hundredthsToString (-2) = "-0.02" /\
  hundredthsToString 123456 = "1234.56".
Proof. vm_compute. repeat split; reflexivity. Qed.

(** The repository's VexFlow test expects ["h"] for the duration 2 of
    its note E4; the source answers ["w"]. *)
Example convertMidiToVexFlow_duration_two :
  vf_duration (vexFlowNote (mkNote "E4" 64 (2 # 5) 2 (4 # 5))) = "w".
Proof. vm_compute. reflexivity. Qed.

Example getMidiSummary_missing_name_and_instrument :
  getMidiSummary
    (Some (mkMidiData None (Some (5 # 2)) (Some [testTrack [testNote "C4" (1 # 2)]]))) =
  mkSummary "Transcribed Audio" "2.5 seconds" 1 1 "Piano".
Proof. vm_compute. reflexivity. Qed.

Example getMidiSummary_example :
  getMidiSummary (Some summaryExample) =
  mkSummary "Test Song" "4.57 seconds" 2 3 "Piano, Guitar".
Proof. vm_compute. reflexivity. Qed.

(** ** Comparisons and the duration thresholds *)

Lemma Qlt_bool_iff (x y : Q) : Qlt_bool x y = true <-> (x < y)%Q.
Proof.
  unfold Qlt_bool. rewrite negb_true_iff. split.
  - intros H. apply Qnot_le_lt. intros Hle.
    apply Qle_bool_iff in Hle. congruence.
  - intros H. destruct (Qle_bool y x) eqn:E; [|reflexivity].
    apply Qle_bool_iff in E. exfalso. exact (Qlt_not_le _ _ H E).
Qed.

Lemma Qlt_bool_false_iff (x y : Q) : Qlt_bool x y = false <-> (y <= x)%Q.
Proof.
  unfold Qlt_bool. rewrite negb_false_iff. apply Qle_bool_iff.
Qed.

(** The five duration buckets, as intervals. *)
Lemma abcDuration_buckets (d : Q) :
  ((d < 1 # 4)%Q /\ abcDuration d = "/4") \/
  ((1 # 4 <= d)%Q /\ (d < 1 # 2)%Q /\ abcDuration d = "/2") \/
  ((1 # 2 <= d)%Q /\ (d < 1)%Q /\ abcDuration d = "") \/
  ((1 <= d)%Q /\ (d < 2)%Q /\ abcDuration d = "2") \/
  ((2 <= d)%Q /\ abcDuration d = "4").
Proof.
  unfold abcDuration.
  destruct (Qlt_bool d (1 # 4)) eqn:E1;
    [apply Qlt_bool_iff in E1; tauto | apply Qlt_bool_false_iff in E1].
  destruct (Qlt_bool d (1 # 2)) eqn:E2;
    [apply Qlt_bool_iff in E2; tauto | apply Qlt_bool_false_iff in E2].
  destruct (Qlt_bool d 1) eqn:E3;
    [apply Qlt_bool_iff in E3; tauto | apply Qlt_bool_false_iff in E3].
  destruct (Qlt_bool d 2) eqn:E4;
    [apply Qlt_bool_iff in E4; tauto | apply Qlt_bool_false_iff in E4].
  tauto.
Qed.

Lemma vexFlowDuration_buckets (d : Q) :
  ((d < 1 # 4)%Q /\ vexFlowDuration d = "16") \/
  ((1 # 4 <= d)%Q /\ (d < 1 # 2)%Q /\ vexFlowDuration d = "8") \/
  ((1 # 2 <= d)%Q /\ (d < 1)%Q /\ vexFlowDuration d = "q") \/
  ((1 <= d)%Q /\ (d < 2)%Q /\ vexFlowDuration d = "h") \/
  ((2 <= d)%Q /\ vexFlowDuration d = "w").
Proof.
  unfold vexFlowDuration.
  destruct (Qlt_bool d (1 # 4)) eqn:E1;
    [apply Qlt_bool_iff in E1; tauto | apply Qlt_bool_false_iff in E1].
  destruct (Qlt_bool d (1 # 2)) eqn:E2;
    [apply Qlt_bool_iff in E2; tauto | apply Qlt_bool_false_iff in E2].
  destruct (Qlt_bool d 1) eqn:E3;
    [apply Qlt_bool_iff in E3; tauto | apply Qlt_bool_false_iff in E3].
  destruct (Qlt_bool d 2) eqn:E4;
    [apply Qlt_bool_iff in E4; tauto | apply Qlt_bool_false_iff in E4].
  tauto.
Qed.

(** From two on the suffix is the one of a whole note. *)
Lemma abcDuration_whole (d : Q) : (2 <= d)%Q -> abcDuration d = "4".
Proof.
  intros H.
  destruct (abcDuration_buckets d) as [[L _]|[(_ & L & _)|[(_ & L & _)|[(_ & L & _)|[_ E]]]]];
    try exact E; exfalso; apply (Qlt_not_le _ _ L);
    (eapply Qle_trans; [|exact H]); discriminate.
Qed.

Lemma vexFlowDuration_whole (d : Q) : (2 <= d)%Q -> vexFlowDuration d = "w".
Proof.
  intros H.
  destruct (vexFlowDuration_buckets d) as [[L _]|[(_ & L & _)|[(_ & L & _)|[(_ & L & _)|[_ E]]]]];
    try exact E; exfalso; apply (Qlt_not_le _ _ L);
    (eapply Qle_trans; [|exact H]); discriminate.
Qed.



(** [convertNoteToABC] is the pitch with the duration suffix appended; the
    duration mapping itself never throws. *)
Lemma convertNoteToABC_suffix (note : Note) :
  convertNoteToABC note =
  (fun pitch => pitch +:+ abcDuration (note_duration note)) <$> abcPitch (note_name note).
Proof.
  unfold convertNoteToABC. destruct (abcPitch (note_name note)); reflexivity.
Qed.

(** ** The sort: a stable, ascending permutation *)

Section SortByKey.
Context {A : Type} (key : A -> Q).

Lemma byKey_le (a b : A) : Qle_bool ((byKey key) a b) 0 = true <-> (key a <= key b)%Q.
Proof.
  unfold byKey. rewrite Qle_bool_iff. split; intros H; lra.
Qed.

Lemma byKey_gt (a b : A) : Qle_bool ((byKey key) a b) 0 = false -> (key b < key a)%Q.
Proof.
  intros H. apply Qnot_le_lt. intros Hle.
  apply byKey_le in Hle. congruence.
Qed.

Lemma insertSorted_perm (x : A) (l : list A) :
  Permutation (x :: l) (insertSorted (byKey key) x l).
Proof.
  induction l as [|y rest IH]; simpl.
  - apply Permutation_refl.
  - destruct (Qle_bool ((byKey key) x y) 0).
    + apply Permutation_refl.
    + eapply Permutation_trans; [apply perm_swap|].
      apply perm_skip. exact IH.
Qed.

Lemma Array_sort_perm (l : list A) : Permutation l (Array_sort (byKey key) l).
Proof.
  induction l as [|x rest IH]; simpl.
  - apply perm_nil.
  - eapply Permutation_trans; [|apply insertSorted_perm].
    apply perm_skip. exact IH.
Qed.

Lemma Array_sort_length (l : list A) : length (Array_sort (byKey key) l) = length l.
Proof. symmetry. apply Permutation_length, Array_sort_perm. Qed.

Lemma insertSorted_sorted (x : A) (l : list A) :
  StronglySorted (fun a b => (key a <= key b)%Q) l ->
  StronglySorted (fun a b => (key a <= key b)%Q) (insertSorted (byKey key) x l).
Proof.
  induction l as [|y rest IH]; simpl; intros Hs.
  - constructor; [constructor | constructor].
  - inversion Hs as [|? ? Hrest Hall]; subst.
    destruct (Qle_bool ((byKey key) x y) 0) eqn:E.
    + apply byKey_le in E. constructor; [exact Hs|].
      constructor; [exact E|].
      eapply Forall_impl; [|exact Hall].
      intros z Hz. simpl in Hz. eapply Qle_trans; [exact E | exact Hz].
    + apply byKey_gt in E. constructor; [apply IH; exact Hrest|].
      eapply Permutation_Forall; [apply insertSorted_perm|].
      constructor; [apply Qlt_le_weak; exact E | exact Hall].
Qed.

Lemma Array_sort_sorted (l : list A) :
  StronglySorted (fun a b => (key a <= key b)%Q) (Array_sort (byKey key) l).
Proof.
  induction l as [|x rest IH]; simpl.
  - constructor.
  - apply insertSorted_sorted. exact IH.
Qed.

(** Insertion does not move [x] past an element of the same key. *)
Lemma insertSorted_sameKey (q : Q) (x : A) (l : list A) :
  List.filter (sameKey key q) (insertSorted (byKey key) x l) =
  List.filter (sameKey key q) (x :: l).
Proof.
  induction l as [|y rest IH]; [reflexivity|].
  simpl insertSorted. destruct (Qle_bool ((byKey key) x y) 0) eqn:E; [reflexivity|].
  apply byKey_gt in E.
  change (List.filter (sameKey key q) (y :: insertSorted (byKey key) x rest))
    with (if sameKey key q y then y :: List.filter (sameKey key q) (insertSorted (byKey key) x rest)
          else List.filter (sameKey key q) (insertSorted (byKey key) x rest)).
  rewrite IH. simpl. unfold sameKey.
  destruct (Qeq_bool (key y) q) eqn:Ey; [|reflexivity].
  destruct (Qeq_bool (key x) q) eqn:Ex; [|reflexivity].
  exfalso. apply Qeq_bool_iff in Ex, Ey.
  apply (Qlt_irrefl q). rewrite <- Ey at 1. rewrite <- Ex. exact E.
Qed.

(** Stability: the elements of any one key keep their order. *)
Lemma Array_sort_stable (q : Q) (l : list A) :
  List.filter (sameKey key q) (Array_sort (byKey key) l) = List.filter (sameKey key q) l.
Proof.
  induction l as [|x rest IH]; [reflexivity|].
  simpl Array_sort. rewrite insertSorted_sameKey. simpl. rewrite IH. reflexivity.
Qed.
End SortByKey.

(** ** The loop over the sorted notes *)

Lemma append_assoc (a b c : string) : (a +:+ b) +:+ c = a +:+ (b +:+ c).
Proof.
  induction a as [|x a IH]; [reflexivity|].
  change (String x ((a +:+ b) +:+ c) = String x (a +:+ (b +:+ c))).
  rewrite IH. reflexivity.
Qed.

Lemma append_nil_r (a : string) : a +:+ "" = a.
Proof.
  induction a as [|x a IH]; [reflexivity|].
  change (String x (a +:+ "") = String x a).
  rewrite IH. reflexivity.
Qed.

(** When a note does not convert, the loop throws. *)
Lemma forEachNote_throw (notes : list Note) (len index : nat) (acc : string) :
  mapM convertNoteToABC notes = None -> forEachNote notes len index acc = None.
Proof.
  revert index acc. induction notes as [|note rest IH]; intros index acc H.
  - discriminate.
  - simpl in *. destruct (convertNoteToABC note) as [tok|]; [|reflexivity].
    simpl in *. apply IH.
    destruct (mapM convertNoteToABC rest); [discriminate | reflexivity].
Qed.

(** When every note converts, the loop appends the tokens in the
    specification's layout, followed by a line break when the last token
    is at a multiple of eight. *)
Lemma forEachNote_layout (notes : list Note) (tokens : list string) :
  Forall2 (fun note token => convertNoteToABC note = Some token) notes tokens ->
  notes <> [] ->
  forall index acc,
    forEachNote notes (index + length notes) index acc =
    Some (acc +:+ spec_tokenLayout index tokens +:+
          (if ((index + length notes) mod 8 =? 0)%nat then LF else "")).
Proof.
  induction 1 as [|note token rest tokens' Hnote Hrest IH]; intros Hne index acc.
  - congruence.
  - cbn [forEachNote]. rewrite Hnote. cbn [mbind option_bind].
    destruct Hrest as [|note' token' rest' tokens'' Hnote' Hrest'].
    + cbn [length forEachNote spec_tokenLayout].
      replace (index + 1 - 1)%nat with index by lia.
      rewrite Nat.ltb_irrefl.
      destruct ((index + 1) mod 8 =? 0)%nat;
        rewrite ?append_assoc, ?append_nil_r; reflexivity.
    + assert (Hlt : (index <? index + length (note :: note' :: rest') - 1)%nat = true).
      { apply Nat.ltb_lt. simpl. lia. }
      rewrite Hlt.
      replace (index + length (note :: note' :: rest'))%nat
        with (S index + length (note' :: rest'))%nat by (simpl; lia).
      rewrite IH by discriminate.
      cbn [spec_tokenLayout].
      destruct ((index + 1) mod 8 =? 0)%nat;
        rewrite ?append_assoc; reflexivity.
Qed.

(** ** The encoders on a model with tracks *)

Lemma pushEach_map (notes : list Note) (acc : list VexFlowNote) :
  pushEach notes acc = acc ++ map vexFlowNote notes.
Proof.
  unfold pushEach. revert acc.
  induction notes as [|note rest IH]; intros acc; simpl.
  - rewrite app_nil_r. reflexivity.
  - rewrite IH, <- app_assoc. reflexivity.
Qed.

(** The VexFlow encoder maps the sorted notes of the first track. *)
Lemma convertMidiToVexFlow_first_track (m : MidiData) (t : Track) (rest : list Track) :
  midi_tracks m = Some (t :: rest) ->
  convertMidiToVexFlow (Some m) =
  map vexFlowNote (Array_sort compareFn (track_notes t)).
Proof.
  intros Ht. unfold convertMidiToVexFlow, convertMidiToVexFlow_try.
  cbn [mbind option_bind]. rewrite Ht. apply pushEach_map.
Qed.

(** The ABC encoder lays out the tokens of the sorted notes of the first
    track after the header, when all of them convert. *)
Lemma convertMidiToABC_first_track (m : MidiData) (t : Track) (rest : list Track)
    (tokens : list string) :
  midi_tracks m = Some (t :: rest) ->
  mapM convertNoteToABC (Array_sort compareFn (track_notes t)) = Some tokens ->
  convertMidiToABC (Some m) =
  abcHeader (nameOrDefault (midi_name m)) +:+ tokenBody tokens.
Proof.
  intros Ht Htok. unfold convertMidiToABC, convertMidiToABC_try.
  cbn [mbind option_bind]. rewrite Ht.
  apply mapM_Some in Htok.
  pose proof Htok as Hlen. apply Forall2_length in Hlen.
  remember (Array_sort compareFn (track_notes t)) as sortedNotes eqn:Es.
  destruct sortedNotes as [|note sorted].
  - inversion Htok; subst. cbn. rewrite append_nil_r. reflexivity.
  - pose proof (forEachNote_layout _ _ Htok ltac:(discriminate) 0%nat
                  (abcHeader (nameOrDefault (midi_name m)))) as H.
    cbn [Nat.add] in H. rewrite H. unfold tokenBody.
    destruct tokens as [|token tokens']; [discriminate Hlen|].
    rewrite <- Hlen. reflexivity.
Qed.

(** ... and answers the fallback document when one of them throws. *)
Lemma convertMidiToABC_note_throws (m : MidiData) (t : Track) (rest : list Track) :
  midi_tracks m = Some (t :: rest) ->
  mapM convertNoteToABC (Array_sort compareFn (track_notes t)) = None ->
  convertMidiToABC (Some m) = abcFallback.
Proof.
  intros Ht Htok. unfold convertMidiToABC, convertMidiToABC_try.
  cbn [mbind option_bind]. rewrite Ht.
  rewrite forEachNote_throw by exact Htok. reflexivity.
Qed.

(** ** Duration boundaries *)

(** C1, as the code has it: for every note whose duration is exactly 2,
    the ABC encoder appends the whole-note suffix ["4"] to the pitch (the
    bucket of the half note ends below 2). *)
Theorem duration_two_abc_whole (note : Note) :
  (note_duration note == 2)%Q ->
  convertNoteToABC note =
  (fun pitch => pitch +:+ "4") <$> abcPitch (note_name note).
Proof.
  intros H. rewrite convertNoteToABC_suffix.
  rewrite abcDuration_whole; [reflexivity|].
  rewrite H. apply Qle_refl.
Qed.

Lemma duration_two_abc_whole_witness :
  (note_duration (testNote "C4" 2) == 2)%Q /\
  convertNoteToABC (testNote "C4" 2) = Some "C4".
Proof.
  split; [reflexivity|].
  apply (duration_two_abc_whole (testNote "C4" 2)). reflexivity.
Defined.

(** C1 as stated fails: at duration exactly 2 the note ["C4"] is encoded
    with the suffix ["4"], not ["2"], and its VexFlow duration code is
    ["w"], not ["h"]. *)
Lemma duration_two_not_half :
  (note_duration (testNote "C4" 2) == 2)%Q /\
  convertNoteToABC (testNote "C4" 2) = Some "C4" /\
  vf_duration (vexFlowNote (testNote "C4" 2)) = "w" /\
  ~ (convertNoteToABC (testNote "C4" 2) = Some ("C" +:+ "2") /\
     vf_duration (vexFlowNote (testNote "C4" 2)) = "h").
Proof.
  split; [reflexivity|]. split; [vm_compute; reflexivity|].
  split; [vm_compute; reflexivity|].
  intros [H _]. vm_compute in H. discriminate H.
Qed.



(** ** The null argument *)

(** C2: on [null] none of the three functions throws: [convertMidiToABC]
    returns the fallback document, which contains ["T:Error"] and ["z4"],
    [convertMidiToVexFlow] returns the empty array and [getMidiSummary]
    the all-default summary. *)
Theorem null_argument_falls_back :
  convertMidiToABC None = abcFallback /\
  (exists before after, convertMidiToABC None = before +:+ "T:Error" +:+ after) /\
  (exists before after, convertMidiToABC None = before +:+ "z4" +:+ after) /\
  convertMidiToVexFlow None = [] /\
  getMidiSummary None = mkSummary "Unknown" "0 seconds" 0 0 "Unknown".
Proof.
  split; [reflexivity|]. split.
  { exists ("X:1" +:+ LF), (LF +:+ "M:4/4" +:+ LF +:+ "L:1/4" +:+ LF +:+ "K:C" +:+ LF +:+ "z4").
    vm_compute. reflexivity. }
  split.
  { exists ("X:1" +:+ LF +:+ "T:Error" +:+ LF +:+ "M:4/4" +:+ LF +:+ "L:1/4" +:+ LF +:+ "K:C" +:+ LF), "".
    vm_compute. reflexivity. }
  split; reflexivity.
Qed.

(** ** An empty track list *)

(** C6: for a model whose [tracks] is empty, [convertMidiToABC] returns
    the five header lines and nothing else, with the model's name as the
    title, [convertMidiToVexFlow] returns the empty array and
    [getMidiSummary] counts 0 tracks and 0 notes; none of the three [try]
    blocks throws. *)
Theorem empty_tracks_outputs (m : MidiData) :
  midi_tracks m = Some [] ->
  convertMidiToABC_try (Some m) = Some (convertMidiToABC (Some m)) /\
  convertMidiToABC (Some m) =
    "X:1" +:+ LF +:+ "T:" +:+ nameOrDefault (midi_name m) +:+ LF +:+
    "M:4/4" +:+ LF +:+ "L:1/4" +:+ LF +:+ "K:C" +:+ LF /\
  (forall name, midi_name m = Some name -> name <> "" ->
     nameOrDefault (midi_name m) = name) /\
  convertMidiToVexFlow_try (Some m) = Some [] /\
  convertMidiToVexFlow (Some m) = [] /\
  getMidiSummary_try (Some m) = Some (getMidiSummary (Some m)) /\
  summary_tracks (getMidiSummary (Some m)) = 0%nat /\
  summary_totalNotes (getMidiSummary (Some m)) = 0%nat.
Proof.
  intros Ht.
  unfold convertMidiToABC, convertMidiToABC_try, convertMidiToVexFlow,
    convertMidiToVexFlow_try, getMidiSummary, getMidiSummary_try.
  cbn [mbind option_bind]. rewrite Ht. cbn [mbind option_bind].
  repeat split; try reflexivity.
  intros name Hname Hne. rewrite Hname. destruct name; [congruence | reflexivity].
Qed.

Lemma empty_tracks_outputs_witness :
  convertMidiToABC (Some emptySong) =
    "X:1" +:+ LF +:+ "T:Empty Song" +:+ LF +:+
    "M:4/4" +:+ LF +:+ "L:1/4" +:+ LF +:+ "K:C" +:+ LF /\
  convertMidiToVexFlow (Some emptySong) = [] /\
  summary_tracks (getMidiSummary (Some emptySong)) = 0%nat /\
  summary_totalNotes (getMidiSummary (Some emptySong)) = 0%nat.
Proof.
  destruct (empty_tracks_outputs emptySong) as (_ & Habc & _ & _ & Hvex & _ & Htracks & Hnotes).
  { reflexivity. }
  split; [exact Habc|]. split; [exact Hvex|]. split; [exact Htracks | exact Hnotes].
Defined.

(** ** The layout of the note tokens *)

(** C3, as the code has it: when the first track has notes and all of
    them convert, the body after the header is the tokens of the sorted
    notes separated by single spaces, with a line break after every 8th
    token; the line break is also there after the final token when the
    number of notes is a multiple of eight. *)
Theorem abc_body_layout (m : MidiData) (t : Track) (rest : list Track)
    (tokens : list string) :
  midi_tracks m = Some (t :: rest) ->
  track_notes t <> [] ->
  mapM convertNoteToABC (Array_sort compareFn (track_notes t)) = Some tokens ->
  length tokens = length (track_notes t) /\
  convertMidiToABC (Some m) =
    abcHeader (nameOrDefault (midi_name m)) +:+ spec_tokenLayout 0 tokens +:+
    (if (length (track_notes t) mod 8 =? 0)%nat then LF else "").
Proof.
  intros Ht Hne Htok.
  assert (Hlen : length tokens = length (track_notes t)).
  { pose proof Htok as H. apply mapM_Some, Forall2_length in H.
    rewrite <- H. apply (Array_sort_length note_time). }
  split; [exact Hlen|].
  rewrite (convertMidiToABC_first_track m t rest tokens Ht Htok).
  unfold tokenBody. rewrite Hlen.
  destruct tokens as [|token tokens']; [|reflexivity].
  destruct (track_notes t); [congruence | discriminate Hlen].
Qed.

Lemma abc_body_layout_witness :
  convertMidiToABC (Some twoNotes) = abcHeader "Test Song" +:+ "C D".
Proof.
  destruct (abc_body_layout twoNotes
              (testTrack [mkNote "C4" 60 0 (1 # 2) (4 # 5);
                          mkNote "D4" 62 (1 # 2) (1 # 2) (7 # 10)])
              [] ["C"; "D"]) as [_ H].
  - reflexivity.
  - discriminate.
  - vm_compute. reflexivity.
  - exact H.
Defined.

(** C3 as stated fails: with eight notes the body ends with a line break
    after the final token, so it is not the layout of the specification. *)
Lemma abc_line_break_after_final_token :
  convertMidiToABC (Some eightNotes) =
    abcHeader "Scale" +:+ "C C C C C C C C" +:+ LF /\
  convertMidiToABC (Some eightNotes) <>
    abcHeader "Scale" +:+ spec_tokenLayout 0 (repeat "C" 8).
Proof.
  split; [vm_compute; reflexivity|].
  intros H. vm_compute in H. discriminate H.
Qed.

(** ** Order of the emitted notes *)

(** C5: both encoders emit the notes of the first track in the order of
    the sorted array, which is ascending in [time], is a permutation of
    the track's notes, and keeps the notes of any one onset time in the
    order they have in the input. *)
Theorem encoders_emit_stably_sorted (m : MidiData) (t : Track) (rest : list Track) :
  midi_tracks m = Some (t :: rest) ->
  convertMidiToVexFlow (Some m) =
    map vexFlowNote (Array_sort compareFn (track_notes t)) /\
  (forall tokens,
     mapM convertNoteToABC (Array_sort compareFn (track_notes t)) = Some tokens ->
     convertMidiToABC (Some m) =
       abcHeader (nameOrDefault (midi_name m)) +:+ tokenBody tokens) /\
  StronglySorted (fun a b => (note_time a <= note_time b)%Q)
    (Array_sort compareFn (track_notes t)) /\
  Permutation (track_notes t) (Array_sort compareFn (track_notes t)) /\
  (forall q,
     List.filter (fun note => Qeq_bool (note_time note) q)
       (Array_sort compareFn (track_notes t)) =
     List.filter (fun note => Qeq_bool (note_time note) q) (track_notes t)).
Proof.
  intros Ht. split; [exact (convertMidiToVexFlow_first_track m t rest Ht)|].
  split; [intros tokens; exact (convertMidiToABC_first_track m t rest tokens Ht)|].
  split; [exact (Array_sort_sorted note_time (track_notes t))|].
  split; [exact (Array_sort_perm note_time (track_notes t))|].
  intros q. exact (Array_sort_stable note_time q (track_notes t)).
Qed.

Lemma encoders_emit_stably_sorted_witness :
  convertMidiToVexFlow (Some tiedNotes) =
    [mkVexFlowNote ["C/4"] "q" 60 0; mkVexFlowNote ["D/4"] "q" 62 0;
     mkVexFlowNote ["G/4"] "q" 67 1; mkVexFlowNote ["E/4"] "q" 64 1] /\
  convertMidiToABC (Some tiedNotes) = abcHeader "Ties" +:+ "C D G E".
Proof.
  destruct (encoders_emit_stably_sorted tiedNotes
              (testTrack [mkNote "G4" 67 1 (1 # 2) (4 # 5);
                          mkNote "C4" 60 0 (1 # 2) (4 # 5);
                          mkNote "E4" 64 1 (1 # 2) (4 # 5);
                          mkNote "D4" 62 0 (1 # 2) (4 # 5)]) [])
    as (Hvex & Habc & _).
  - reflexivity.
  - split; [exact Hvex|].
    apply (Habc ["C"; "D"; "G"; "E"]). vm_compute. reflexivity.
Defined.

(** ** Pitch names: pitch class and octave *)

Lemma append_cons (c : ascii) (a b : string) :
  String c a +:+ b = String c (a +:+ b).
Proof. reflexivity. Qed.

Lemma dropDigits_all (digits : string) :
  allDigits digits = true -> dropDigits digits = "".
Proof.
  induction digits as [|c rest IH]; simpl; [reflexivity|].
  intros H. apply andb_true_iff in H as [Hc Hrest].
  rewrite Hc. apply IH, Hrest.
Qed.

Lemma takeDigits_all (digits : string) :
  allDigits digits = true -> takeDigits digits = digits.
Proof.
  induction digits as [|c rest IH]; simpl; [reflexivity|].
  intros H. apply andb_true_iff in H as [Hc Hrest].
  rewrite Hc, IH by exact Hrest. reflexivity.
Qed.

(** A name made of a pitch class without digits and a run of digits is
    split back into the two. *)
Lemma removeDigits_app (pc digits : string) :
  noDigits pc = true -> allDigits digits = true ->
  removeDigits (pc +:+ digits) = pc.
Proof.
  intros Hpc Hd. induction pc as [|c rest IH].
  - change ("" +:+ digits) with digits.
    destruct digits as [|d ds]; [reflexivity|].
    simpl in *. apply andb_true_iff in Hd as [Hd Hds].
    rewrite Hd. apply dropDigits_all, Hds.
  - rewrite append_cons. simpl in *.
    apply andb_true_iff in Hpc as [Hc Hrest].
    apply negb_true_iff in Hc. rewrite Hc, IH by exact Hrest. reflexivity.
Qed.

Lemma matchDigits_app (pc digits : string) :
  noDigits pc = true -> allDigits digits = true -> digits <> "" ->
  matchDigits (pc +:+ digits) = Some digits.
Proof.
  intros Hpc Hd Hne. induction pc as [|c rest IH].
  - change ("" +:+ digits) with digits.
    destruct digits as [|d ds]; [congruence|].
    simpl in *. apply andb_true_iff in Hd as [Hd Hds].
    rewrite Hd, takeDigits_all by exact Hds. reflexivity.
  - rewrite append_cons. simpl in *.
    apply andb_true_iff in Hpc as [Hc Hrest].
    apply negb_true_iff in Hc. rewrite Hc. apply IH, Hrest.
Qed.

(** The twelve keys of [noteMap]: none has a digit, and no value is the
    empty string. *)
Lemma noteMap_entry (pc value : string) :
  noteMap !! pc = Some value -> noDigits pc = true /\ value <> "".
Proof.
  intros H. unfold noteMap in H. apply elem_of_list_to_map_2 in H.
  repeat (apply elem_of_cons in H as [H|H];
          [inversion H; subst; split; [reflexivity | discriminate]|]).
  apply elem_of_nil in H. contradiction.
Qed.

Lemma orElse_nonempty (value fallback : string) :
  value <> "" -> orElse (VString value) fallback = VString value.
Proof. destruct value; [congruence | reflexivity]. Qed.

(** A known pitch class followed by an octave number other than zero gets
    the marks of that octave. *)
Lemma abcPitch_octave (pc value digits : string) :
  noteMap !! pc = Some value ->
  allDigits digits = true -> digits <> "" ->
  parseInt digits <> 0%nat ->
  abcPitch (pc +:+ digits) = Some (withOctaveMarks value (parseInt digits)).
Proof.
  intros Hpc Hd Hne Hn.
  destruct (noteMap_entry pc value Hpc) as [Hno Hval].
  unfold abcPitch, octaveOf, noteMap_get, withOctaveMarks.
  rewrite removeDigits_app, matchDigits_app by assumption.
  rewrite Hpc, orElse_nonempty by exact Hval.
  apply Nat.eqb_neq in Hn. rewrite Hn.
  destruct (5 <=? parseInt digits)%nat; [reflexivity|].
  destruct (parseInt digits <? 4)%nat; reflexivity.
Qed.

(** The octave number zero is taken for a missing one: the pitch is the
    one of octave 4, without marks. *)
Lemma abcPitch_octave_zero (pc value digits : string) :
  noteMap !! pc = Some value ->
  allDigits digits = true -> digits <> "" ->
  parseInt digits = 0%nat ->
  abcPitch (pc +:+ digits) = Some value.
Proof.
  intros Hpc Hd Hne Hn.
  destruct (noteMap_entry pc value Hpc) as [Hno Hval].
  unfold abcPitch, octaveOf, noteMap_get.
  rewrite removeDigits_app, matchDigits_app by assumption.
  rewrite Hpc, orElse_nonempty by exact Hval.
  rewrite Hn. reflexivity.
Qed.

(** The marks as the specification counts them: lower case and [n - 5]
    apostrophes from octave 5 on, [4 - n] commas below octave 4, nothing
    at octave 4. *)
Lemma withOctaveMarks_cases (abcNote : string) (n : nat) :
  (5 <= n -> withOctaveMarks abcNote n = toLowerCase abcNote +:+ repeatString "'" (n - 5)) /\
  (n < 4 -> withOctaveMarks abcNote n = abcNote +:+ repeatString "," (4 - n)) /\
  (n = 4 -> withOctaveMarks abcNote n = abcNote).
Proof.
  unfold withOctaveMarks. repeat split; intros H.
  - apply Nat.leb_le in H. rewrite H. reflexivity.
  - assert (H5 : (5 <=? n)%nat = false) by (apply Nat.leb_gt; lia).
    apply Nat.ltb_lt in H. rewrite H5, H. reflexivity.
  - subst n. reflexivity.
Qed.

(** A pitch class that is neither a key of [noteMap] nor an inherited
    property is replaced by ["C"]. *)
Lemma abcPitch_unknown (name : string) :
  noteMap_get (removeDigits name) = VUndefined ->
  abcPitch name = Some (withOctaveMarks "C" (octaveOf name)).
Proof.
  intros H. unfold abcPitch, withOctaveMarks. rewrite H. cbn [orElse].
  destruct (5 <=? octaveOf name)%nat; [reflexivity|].
  destruct (octaveOf name <? 4)%nat; reflexivity.
Qed.

(** ** Octave zero *)

(** C4 at its failing input: the octave digit 0 is falsy, [|| 4] replaces
    it, and the notes of octave 0 are written without any comma, as if
    they were in octave 4; the octaves 3, 4, 5 and 6 are marked as
    stated. *)
Theorem octave_zero_has_no_commas :
  convertNoteToABC (testNote "C0" (1 # 2)) = Some "C" /\
  convertNoteToABC (testNote "A0" (1 # 2)) = Some "A" /\
  convertNoteToABC (testNote "C0" (1 # 2)) <> Some "C,,,," /\
  convertNoteToABC (testNote "C1" (1 # 2)) = Some "C,,," /\
  convertNoteToABC (testNote "C3" (1 # 2)) = Some "C," /\
  convertNoteToABC (testNote "C4" (1 # 2)) = Some "C" /\
  convertNoteToABC (testNote "C5" (1 # 2)) = Some "c" /\
  convertNoteToABC (testNote "C6" (1 # 2)) = Some "c'".
Proof.
  repeat split; try (vm_compute; reflexivity).
  intros H. vm_compute in H. discriminate H.
Qed.

(** ** Unknown pitch classes *)

(** A pitch class that names a property every object inherits is found
    by the lookup, so ["C"] is not substituted; from octave 5 on
    [toLowerCase] is called on the inherited function and
    [convertNoteToABC] throws, and [convertMidiToABC] then answers the
    fallback document.  No such name begins with a capital letter. *)
Remark inherited_pitch_class_not_replaced :
  noteMap !! "constructor" = None /\
  convertNoteToABC (testNote "constructor5" (1 # 2)) = None /\
  convertNoteToABC (testNote "constructor4" (1 # 2)) <> Some "C" /\
  convertNoteToABC (testNote "H5" (1 # 2)) = Some "c" /\
  convertMidiToABC
    (Some (mkMidiData (Some "Song") None
             (Some [testTrack [testNote "constructor5" (1 # 2)]]))) = abcFallback.
Proof.
  repeat split; try (vm_compute; reflexivity).
  intros H. vm_compute in H. discriminate H.
Qed.

Lemma upper_letter_not_digit (c : ascii) :
  isUpperLetter c = true -> isDigit c = false.
Proof.
  destruct c as [b0 b1 b2 b3 b4 b5 b6 b7].
  destruct b0, b1, b2, b3, b4, b5, b6, b7; intros H;
    first [reflexivity | discriminate H].
Qed.

(** The names of the inherited properties begin with a small letter or an
    underscore. *)
Lemma inherited_name_not_capital (c : ascii) (rest text : string) :
  Object_prototype !! String c rest = Some text -> isUpperLetter c = false.
Proof.
  intros H. unfold Object_prototype in H. apply elem_of_list_to_map_2 in H.
  repeat (apply elem_of_cons in H as [H|H]; [inversion H; subst; reflexivity|]).
  apply elem_of_nil in H. contradiction.
Qed.

(** The match of [/\d+/] is a run of digits that is not empty. *)
Lemma matchDigits_digits (name digits : string) :
  matchDigits name = Some digits -> allDigits digits = true /\ digits <> "".
Proof.
  assert (Htake : forall s, allDigits (takeDigits s) = true).
  { induction s as [|c rest IH]; simpl; [reflexivity|].
    destruct (isDigit c) eqn:E; simpl; [rewrite E, IH|]; reflexivity. }
  induction name as [|c rest IH]; simpl; [discriminate|].
  destruct (isDigit c) eqn:E; [|exact IH].
  intros H. inversion H; subst. split; [|discriminate].
  simpl. rewrite E. apply Htake.
Qed.

(** The pitch class ["C"] with the octave digits [digits]. *)
Lemma abcPitch_C (digits : string) :
  allDigits digits = true -> digits <> "" ->
  abcPitch ("C" +:+ digits) =
  Some (withOctaveMarks "C"
          (if (parseInt digits =? 0)%nat then 4%nat else parseInt digits)).
Proof.
  intros Hd Hne. destruct (parseInt digits =? 0)%nat eqn:E.
  - apply Nat.eqb_eq in E.
    rewrite (abcPitch_octave_zero "C" "C" digits eq_refl Hd Hne E). reflexivity.
  - apply Nat.eqb_neq in E.
    exact (abcPitch_octave "C" "C" digits eq_refl Hd Hne E).
Qed.

(** C10: a note whose name begins with a capital letter, as every note
    name does, and whose pitch class is not one of the twelve keys of
    [noteMap] is converted without an exception: ["C"] takes the place of
    the pitch class and gets the octave marks and the duration suffix,
    so that the token is the one of the note named ["C"] with the same
    octave digits (of ["C"] alone when the name has no digit). *)
Theorem unknown_pitch_class_substituted (note : Note) (letter : ascii)
    (rest : string) :
  note_name note = String letter rest ->
  isUpperLetter letter = true ->
  noteMap !! removeDigits (note_name note) = None ->
  convertNoteToABC note =
    Some (withOctaveMarks "C" (octaveOf (note_name note)) +:+
          abcDuration (note_duration note)) /\
  (forall digits,
     matchDigits (note_name note) = Some digits ->
     convertNoteToABC note =
     convertNoteToABC
       (mkNote ("C" +:+ digits) (note_midi note) (note_time note)
          (note_duration note) (note_velocity note))) /\
  (matchDigits (note_name note) = None ->
     convertNoteToABC note =
     convertNoteToABC
       (mkNote "C" (note_midi note) (note_time note)
          (note_duration note) (note_velocity note))).
Proof.
  intros Hname Hletter Hown.
  assert (Hinh : Object_prototype !! removeDigits (note_name note) = None).
  { rewrite Hname. simpl. rewrite (upper_letter_not_digit letter Hletter).
    destruct (Object_prototype !! String letter (removeDigits rest)) as [text|] eqn:E;
      [|reflexivity].
    apply inherited_name_not_capital in E. congruence. }
  assert (H : convertNoteToABC note =
              Some (withOctaveMarks "C" (octaveOf (note_name note)) +:+
                    abcDuration (note_duration note))).
  { unfold convertNoteToABC. rewrite abcPitch_unknown; [reflexivity|].
    unfold noteMap_get. rewrite Hown, Hinh. reflexivity. }
  split; [exact H|]. split.
  - intros digits Hdigits. rewrite H.
    destruct (matchDigits_digits _ _ Hdigits) as [Hd Hne].
    unfold convertNoteToABC at 1. cbn [note_name note_duration].
    rewrite (abcPitch_C digits Hd Hne).
    unfold octaveOf. rewrite Hdigits. reflexivity.
  - intros Hnone. rewrite H. unfold octaveOf. rewrite Hnone. reflexivity.
Qed.

Lemma unknown_pitch_class_substituted_witness :
  convertNoteToABC (testNote "C-1" (1 # 2)) = Some "C,,," /\
  convertNoteToABC (testNote "H5" 1) = Some "c2".
Proof.
  destruct (unknown_pitch_class_substituted (testNote "C-1" (1 # 2)) "C"%char "-1"
              eq_refl eq_refl eq_refl) as [H1 _].
  destruct (unknown_pitch_class_substituted (testNote "H5" 1) "H"%char "5"
              eq_refl eq_refl eq_refl) as [H2 _].
  split; [rewrite H1 | rewrite H2]; vm_compute; reflexivity.
Defined.

(** ** The summary *)




(** The doubles of the printed durations: the product [duration * 100]
    is rounded to a double before [Math.round] sees it. *)
Example durationText_doubles :
  durationText (Some (4567 # 1000)) = "4.57" /\
  durationText (Some (2675 # 1000)) = "2.68" /\
  durationText (Some (1005 # 1000)) = "1" /\
  durationText (Some (145 # 1000)) = "0.14" /\
  durationText (Some (5 # 2)) = "2.5" /\
  durationText (Some 0%Q) = "0" /\
  durationText None = "NaN".
Proof. vm_compute. repeat split; reflexivity. Qed.



(** A model that is not [null] but has no [tracks] (no such model comes
    from [parseMidiBlob]) gets the all-default summary, whatever its
    duration. *)
Lemma summary_without_tracks :
  getMidiSummary (Some noTracks) = mkSummary "Unknown" "0 seconds" 0 0 "Unknown" /\
  midi_duration noTracks = Some (4567 # 1000) /\
  summary_duration (getMidiSummary (Some noTracks)) <> "4.57 seconds" /\
  summary_instruments (getMidiSummary (Some noTracks)) <> "".
Proof.
  split; [reflexivity|]. split; [reflexivity|].
  split; intros H; vm_compute in H; discriminate H.
Qed.

(** ** The encoders and the store *)

(** Copy, sort the copy, read it: the continuation gets the sorted
    elements, and the only change of the store is the new array. *)
Lemma copy_sort_read {A} (k : list Note -> Eff A)
    (σ : gmap positive (list Note)) (ref : positive) (notes : list Note) :
  σ !! ref = Some notes ->
  (do copy <- spread ref;
   do sortedNotes <- sortInPlace compareFn copy;
   do elements <- readArray sortedNotes;
   k elements) σ =
  k (Array_sort compareFn notes)
    (<[fresh (dom σ) := Array_sort compareFn notes]> σ).
Proof.
  intros Href. unfold spread, sortInPlace, readArray, eff_bind.
  rewrite Href. rewrite lookup_insert_eq. rewrite insert_insert_eq.
  rewrite lookup_insert_eq. reflexivity.
Qed.

(** Reading the copy of an array that does not exist throws. *)
Lemma copy_sort_read_dangling {A} (k : list Note -> Eff A)
    (σ : gmap positive (list Note)) (ref : positive) :
  σ !! ref = None ->
  (do copy <- spread ref;
   do sortedNotes <- sortInPlace compareFn copy;
   do elements <- readArray sortedNotes;
   k elements) σ = (None, σ).
Proof.
  intros Href. unfold spread, readArray, eff_bind. rewrite Href. reflexivity.
Qed.

Lemma fresh_array_frame (σ : gmap positive (list Note)) (elements : list Note) :
  σ ⊆ <[fresh (dom σ) := elements]> σ.
Proof.
  apply insert_subseteq. apply not_elem_of_dom. apply is_fresh.
Qed.

(** Neither encoder changes an array that exists before the call. *)
Lemma convertMidiToABC_store_frame (arg : option MidiRef)
    (σ : gmap positive (list Note)) :
  σ ⊆ (convertMidiToABC_store arg σ).2.
Proof.
  unfold convertMidiToABC_store, tryCatch, convertMidiToABC_eff.
  destruct arg as [midiData|]; [|reflexivity].
  unfold eff_lift at 1. unfold eff_bind at 1. unfold eff_ret at 1.
  destruct (mref_tracks midiData) as [[|firstTrack rest]|]; try reflexivity.
  destruct (σ !! tref_notes firstTrack) as [notes|] eqn:Href.
  - rewrite (copy_sort_read _ σ _ notes Href).
    destruct (forEachNote _ _ _ _); apply fresh_array_frame.
  - rewrite (copy_sort_read_dangling _ σ _ Href). reflexivity.
Qed.

Lemma convertMidiToVexFlow_store_frame (arg : option MidiRef)
    (σ : gmap positive (list Note)) :
  σ ⊆ (convertMidiToVexFlow_store arg σ).2.
Proof.
  unfold convertMidiToVexFlow_store, tryCatch, convertMidiToVexFlow_eff.
  destruct arg as [midiData|]; [|reflexivity].
  unfold eff_lift at 1. unfold eff_bind at 1. unfold eff_ret at 1.
  destruct (mref_tracks midiData) as [[|firstTrack rest]|]; try reflexivity.
  destruct (σ !! tref_notes firstTrack) as [notes|] eqn:Href.
  - rewrite (copy_sort_read _ σ _ notes Href). apply fresh_array_frame.
  - rewrite (copy_sort_read_dangling _ σ _ Href). reflexivity.
Qed.

(** A model read in a store is read the same in any larger store. *)
Lemma resolve_weaken (σ σ' : gmap positive (list Note)) (mref : MidiRef)
    (m : MidiData) :
  σ ⊆ σ' -> resolve σ mref = Some m -> resolve σ' mref = Some m.
Proof.
  intros Hsub. unfold resolve.
  destruct (mref_tracks mref) as [tracks|]; [|tauto].
  destruct (mapM (resolveTrack σ) tracks) as [resolved|] eqn:E; [|discriminate].
  intros H. cbn [mbind option_bind] in H.
  assert (E' : mapM (resolveTrack σ') tracks = Some resolved).
  { apply mapM_Some. apply mapM_Some in E.
    revert E. apply Forall2_impl.
    intros t t' Ht. unfold resolveTrack in *.
    destruct (σ !! tref_notes t) as [notes|] eqn:Hn; [|discriminate].
    rewrite (lookup_weaken _ _ _ _ Hn Hsub). exact Ht. }
  rewrite E'. exact H.
Qed.

(** On a model that reads as [m], the encoders on the store return what
    the encoders on [m] return. *)
Lemma convertMidiToABC_store_result (σ : gmap positive (list Note))
    (mref : MidiRef) (m : MidiData) :
  resolve σ mref = Some m ->
  (convertMidiToABC_store (Some mref) σ).1 = convertMidiToABC (Some m).
Proof.
  unfold resolve, convertMidiToABC_store, tryCatch, convertMidiToABC_eff,
    convertMidiToABC, convertMidiToABC_try.
  unfold eff_lift at 1. unfold eff_bind at 1. unfold eff_ret at 1.
  cbn [mbind option_bind].
  destruct (mref_tracks mref) as [[|firstTrack rest]|];
    cbn [mapM mbind option_bind mret option_ret].
  - intros H. inversion H; subst. reflexivity.
  - destruct (resolveTrack σ firstTrack) as [first|] eqn:Efirst; [|discriminate].
    cbn [mbind option_bind].
    destruct (mapM (resolveTrack σ) rest) as [rest'|]; [|discriminate].
    cbn [mbind option_bind]. intros H. inversion H; subst.
    unfold resolveTrack in Efirst.
    destruct (σ !! tref_notes firstTrack) as [notes|] eqn:Href; [|discriminate].
    inversion Efirst; subst. cbn [midi_tracks midi_name track_notes].
    rewrite (copy_sort_read _ σ _ notes Href).
    destruct (forEachNote _ _ _ _); reflexivity.
  - intros H. inversion H; subst. reflexivity.
Qed.

Lemma convertMidiToVexFlow_store_result (σ : gmap positive (list Note))
    (mref : MidiRef) (m : MidiData) :
  resolve σ mref = Some m ->
  (convertMidiToVexFlow_store (Some mref) σ).1 = convertMidiToVexFlow (Some m).
Proof.
  unfold resolve, convertMidiToVexFlow_store, tryCatch, convertMidiToVexFlow_eff,
    convertMidiToVexFlow, convertMidiToVexFlow_try.
  unfold eff_lift at 1. unfold eff_bind at 1. unfold eff_ret at 1.
  cbn [mbind option_bind].
  destruct (mref_tracks mref) as [[|firstTrack rest]|];
    cbn [mapM mbind option_bind mret option_ret].
  - intros H. inversion H; subst. reflexivity.
  - destruct (resolveTrack σ firstTrack) as [first|] eqn:Efirst; [|discriminate].
    cbn [mbind option_bind].
    destruct (mapM (resolveTrack σ) rest) as [rest'|]; [|discriminate].
    cbn [mbind option_bind]. intros H. inversion H; subst.
    unfold resolveTrack in Efirst.
    destruct (σ !! tref_notes firstTrack) as [notes|] eqn:Href; [|discriminate].
    inversion Efirst; subst. cbn [midi_tracks track_notes].
    rewrite (copy_sort_read _ σ _ notes Href). reflexivity.
  - intros H. inversion H; subst. reflexivity.
Qed.

(** [sort] on an array itself does reorder it: the copy is what keeps the
    track's notes in place. *)
Remark sortInPlace_reorders :
  (sortInPlace compareFn 1%positive tiedStore).2 !! 1%positive <>
  tiedStore !! 1%positive.
Proof. vm_compute. discriminate. Qed.

(** C8: the encoders leave the model as it is.  Every array that exists
    before a call has the same elements in the same order after it, for
    any argument; and for a model whose arrays all exist, the model reads
    the same in the store after the call, and the results are the ones of
    the encoders on the model read before the call. *)
Theorem encoders_leave_model_unchanged (σ : gmap positive (list Note))
    (arg : option MidiRef) :
  (forall ref notes, σ !! ref = Some notes ->
     (convertMidiToABC_store arg σ).2 !! ref = Some notes /\
     (convertMidiToVexFlow_store arg σ).2 !! ref = Some notes) /\
  (forall mref m, arg = Some mref -> resolve σ mref = Some m ->
     (convertMidiToABC_store arg σ).1 = convertMidiToABC (Some m) /\
     resolve (convertMidiToABC_store arg σ).2 mref = Some m /\
     (convertMidiToVexFlow_store arg σ).1 = convertMidiToVexFlow (Some m) /\
     resolve (convertMidiToVexFlow_store arg σ).2 mref = Some m).
Proof.
  pose proof (convertMidiToABC_store_frame arg σ) as Habc.
  pose proof (convertMidiToVexFlow_store_frame arg σ) as Hvex.
  split.
  - intros ref notes Href. split.
    + exact (lookup_weaken _ _ _ _ Href Habc).
    + exact (lookup_weaken _ _ _ _ Href Hvex).
  - intros mref m -> Hm. repeat split.
    + apply convertMidiToABC_store_result, Hm.
    + exact (resolve_weaken _ _ _ _ Habc Hm).
    + apply convertMidiToVexFlow_store_result, Hm.
    + exact (resolve_weaken _ _ _ _ Hvex Hm).
Qed.

Lemma encoders_leave_model_unchanged_witness :
  (convertMidiToABC_store (Some tiedRef) tiedStore).2 !! 1%positive =
    tiedStore !! 1%positive /\
  (convertMidiToVexFlow_store (Some tiedRef) tiedStore).2 !! 1%positive =
    tiedStore !! 1%positive /\
  resolve (convertMidiToABC_store (Some tiedRef) tiedStore).2 tiedRef = Some tiedNotes /\
  resolve (convertMidiToVexFlow_store (Some tiedRef) tiedStore).2 tiedRef = Some tiedNotes.
Proof.
  destruct (encoders_leave_model_unchanged tiedStore (Some tiedRef)) as [Hframe Hmodel].
  destruct (Hframe 1%positive
              [mkNote "G4" 67 1 (1 # 2) (4 # 5); mkNote "C4" 60 0 (1 # 2) (4 # 5);
               mkNote "E4" 64 1 (1 # 2) (4 # 5); mkNote "D4" 62 0 (1 # 2) (4 # 5)])
    as [Habc Hvex].
  { vm_compute. reflexivity. }
  destruct (Hmodel tiedRef tiedNotes) as (_ & Hm & _ & Hm').
  { reflexivity. }
  { vm_compute. reflexivity. }
  split; [exact Habc|]. split; [exact Hvex|].
  split; [exact Hm | exact Hm'].
Defined.

(** * Further properties of the MIDI processor *)

(** ** The two duration tables *)

(** X1: the ABC suffix and the VexFlow code of a duration always come
    from the same bucket: the two copies of the threshold chain agree on
    every duration, the boundaries included. *)
Theorem encoders_share_duration_buckets (d : Q) :
  ((d < 1 # 4)%Q /\ abcDuration d = "/4" /\ vexFlowDuration d = "16") \/
  ((1 # 4 <= d)%Q /\ (d < 1 # 2)%Q /\ abcDuration d = "/2" /\ vexFlowDuration d = "8") \/
  ((1 # 2 <= d)%Q /\ (d < 1)%Q /\ abcDuration d = "" /\ vexFlowDuration d = "q") \/
  ((1 <= d)%Q /\ (d < 2)%Q /\ abcDuration d = "2" /\ vexFlowDuration d = "h") \/
  ((2 <= d)%Q /\ abcDuration d = "4" /\ vexFlowDuration d = "w").
Proof.
  unfold abcDuration, vexFlowDuration.
  destruct (Qlt_bool d (1 # 4)) eqn:E1;
    [apply Qlt_bool_iff in E1; tauto | apply Qlt_bool_false_iff in E1].
  destruct (Qlt_bool d (1 # 2)) eqn:E2;
    [apply Qlt_bool_iff in E2; tauto | apply Qlt_bool_false_iff in E2].
  destruct (Qlt_bool d 1) eqn:E3;
    [apply Qlt_bool_iff in E3; tauto | apply Qlt_bool_false_iff in E3].
  destruct (Qlt_bool d 2) eqn:E4;
    [apply Qlt_bool_iff in E4; tauto | apply Qlt_bool_false_iff in E4].
  tauto.
Qed.

(** ** Pitch names *)

Lemma removeDigits_noDigits (name : string) :
  noDigits name = true -> removeDigits name = name.
Proof.
  intros H. rewrite <- (append_nil_r name) at 1.
  apply removeDigits_app; [exact H | reflexivity].
Qed.

Lemma matchDigits_noDigits (name : string) :
  noDigits name = true -> matchDigits name = None.
Proof.
  induction name as [|c rest IH]; simpl; [reflexivity|].
  intros H. apply andb_true_iff in H as [Hc Hrest].
  apply negb_true_iff in Hc. rewrite Hc. apply IH, Hrest.
Qed.

(** X2: a note named by one of the twelve pitch classes followed by an
    octave number [n] other than zero is written with the marks of that
    octave: lower case and [n - 5] apostrophes from 5 on, [4 - n] commas
    below 4, no mark at 4; the duration suffix follows. *)
Theorem known_pitch_gets_octave_marks (note : Note) (pc value digits : string) :
  note_name note = pc +:+ digits ->
  noteMap !! pc = Some value ->
  allDigits digits = true -> digits <> "" ->
  parseInt digits <> 0%nat ->
  (5 <= parseInt digits ->
     convertNoteToABC note =
     Some ((toLowerCase value +:+ repeatString "'" (parseInt digits - 5)) +:+
           abcDuration (note_duration note))) /\
  (parseInt digits < 4 ->
     convertNoteToABC note =
     Some ((value +:+ repeatString "," (4 - parseInt digits)) +:+
           abcDuration (note_duration note))) /\
  (parseInt digits = 4%nat ->
     convertNoteToABC note = Some (value +:+ abcDuration (note_duration note))).
Proof.
  intros Hname Hpc Hd Hne Hn.
  assert (H : convertNoteToABC note =
              Some (withOctaveMarks value (parseInt digits) +:+
                    abcDuration (note_duration note))).
  { unfold convertNoteToABC. rewrite Hname.
    rewrite (abcPitch_octave pc value digits Hpc Hd Hne Hn). reflexivity. }
  destruct (withOctaveMarks_cases value (parseInt digits)) as (Hhigh & Hlow & Hmid).
  repeat split; intros Hcase; rewrite H.
  - rewrite Hhigh by exact Hcase. reflexivity.
  - rewrite Hlow by exact Hcase. reflexivity.
  - rewrite Hmid by exact Hcase. reflexivity.
Qed.

Lemma known_pitch_gets_octave_marks_witness :
  convertNoteToABC (testNote "F#7" (3 # 2)) = Some "^f''2".
Proof.
  destruct (known_pitch_gets_octave_marks (testNote "F#7" (3 # 2)) "F#" "^F" "7")
    as (Hhigh & _).
  - reflexivity.
  - reflexivity.
  - reflexivity.
  - discriminate.
  - vm_compute. discriminate.
  - apply Hhigh. vm_compute. lia.
Defined.

(** X3: a name without any digit is taken to be in octave 4: a known
    pitch class is written as its table entry without marks, an unknown
    one (that is no inherited property either) as ["C"]. *)
Theorem missing_octave_is_octave_four (note : Note) :
  noDigits (note_name note) = true ->
  octaveOf (note_name note) = 4%nat /\
  (forall value, noteMap !! note_name note = Some value ->
     convertNoteToABC note = Some (value +:+ abcDuration (note_duration note))) /\
  (noteMap_get (note_name note) = VUndefined ->
     convertNoteToABC note = Some ("C" +:+ abcDuration (note_duration note))).
Proof.
  intros Hno.
  assert (Hoct : octaveOf (note_name note) = 4%nat).
  { unfold octaveOf. rewrite matchDigits_noDigits by exact Hno. reflexivity. }
  split; [exact Hoct|]. split.
  - intros value Hpc. destruct (noteMap_entry _ _ Hpc) as [_ Hval].
    unfold convertNoteToABC, abcPitch, noteMap_get.
    rewrite Hoct, removeDigits_noDigits, Hpc, orElse_nonempty by assumption.
    reflexivity.
  - intros Hun. unfold convertNoteToABC.
    rewrite abcPitch_unknown by (rewrite removeDigits_noDigits; assumption).
    rewrite Hoct. reflexivity.
Qed.

Lemma missing_octave_is_octave_four_witness :
  convertNoteToABC (testNote "G#" (1 # 2)) = Some "^G" /\
  convertNoteToABC (testNote "Bb" (1 # 2)) = Some "C".
Proof.
  split.
  - destruct (missing_octave_is_octave_four (testNote "G#" (1 # 2))) as (_ & H & _);
      [reflexivity|].
    apply (H "^G"). reflexivity.
  - destruct (missing_octave_is_octave_four (testNote "Bb" (1 # 2))) as (_ & _ & H);
      [reflexivity|].
    apply H. reflexivity.
Defined.

(** X4: a pitch class that is neither a key of [noteMap] nor the name of
    an inherited property is replaced by ["C"], which then gets the
    octave marks of the note's octave and the duration suffix. *)
Theorem unknown_pitch_class_becomes_C (note : Note) :
  noteMap !! removeDigits (note_name note) = None ->
  Object_prototype !! removeDigits (note_name note) = None ->
  (5 <= octaveOf (note_name note) ->
     convertNoteToABC note =
     Some (("c" +:+ repeatString "'" (octaveOf (note_name note) - 5)) +:+
           abcDuration (note_duration note))) /\
  (octaveOf (note_name note) < 4 ->
     convertNoteToABC note =
     Some (("C" +:+ repeatString "," (4 - octaveOf (note_name note))) +:+
           abcDuration (note_duration note))) /\
  (octaveOf (note_name note) = 4%nat ->
     convertNoteToABC note = Some ("C" +:+ abcDuration (note_duration note))).
Proof.
  intros Hown Hinh.
  assert (H : convertNoteToABC note =
              Some (withOctaveMarks "C" (octaveOf (note_name note)) +:+
                    abcDuration (note_duration note))).
  { unfold convertNoteToABC. rewrite abcPitch_unknown; [reflexivity|].
    unfold noteMap_get. rewrite Hown, Hinh. reflexivity. }
  destruct (withOctaveMarks_cases "C" (octaveOf (note_name note))) as (Hhigh & Hlow & Hmid).
  repeat split; intros Hcase; rewrite H.
  - rewrite Hhigh by exact Hcase. reflexivity.
  - rewrite Hlow by exact Hcase. reflexivity.
  - rewrite Hmid by exact Hcase. reflexivity.
Qed.

Lemma unknown_pitch_class_becomes_C_witness :
  convertNoteToABC (testNote "Db2" (1 # 2)) = Some "C,,".
Proof.
  destruct (unknown_pitch_class_becomes_C (testNote "Db2" (1 # 2)))
    as (_ & Hlow & _).
  - reflexivity.
  - reflexivity.
  - apply Hlow. vm_compute. lia.
Defined.

(** X5: [convertNoteToABC] throws exactly when the pitch class is not a
    key of [noteMap] but names an inherited property, and the octave is 5
    or more ([toLowerCase] is then called on a value that is no string).
    For every other note it returns a token. *)
Theorem convertNoteToABC_throws_iff (note : Note) :
  convertNoteToABC note = None <->
  noteMap !! removeDigits (note_name note) = None /\
  is_Some (Object_prototype !! removeDigits (note_name note)) /\
  5 <= octaveOf (note_name note).
Proof.
  unfold convertNoteToABC, abcPitch, noteMap_get.
  destruct (noteMap !! removeDigits (note_name note)) as [value|] eqn:Hown.
  - split.
    + destruct value; cbn [orElse callToLowerCase];
        destruct (5 <=? octaveOf (note_name note))%nat;
        try destruct (octaveOf (note_name note) <? 4)%nat; discriminate.
    + intros [H _]. discriminate H.
  - destruct (Object_prototype !! removeDigits (note_name note)) as [text|] eqn:Hinh;
      cbn [orElse callToLowerCase].
    + destruct (5 <=? octaveOf (note_name note))%nat eqn:E.
      * apply Nat.leb_le in E. split; [intros _|reflexivity].
        split; [reflexivity|]. split; [eexists; reflexivity | exact E].
      * apply Nat.leb_gt in E. split.
        -- destruct (octaveOf (note_name note) <? 4)%nat; discriminate.
        -- intros (_ & _ & H). lia.
    + split.
      * destruct (5 <=? octaveOf (note_name note))%nat;
          try destruct (octaveOf (note_name note) <? 4)%nat; discriminate.
      * intros (_ & [text Htext] & _). discriminate Htext.
Qed.

Lemma convertNoteToABC_throws_iff_witness :
  convertNoteToABC (testNote "toString9" (1 # 2)) = None.
Proof.
  apply (convertNoteToABC_throws_iff (testNote "toString9" (1 # 2))).
  split; [reflexivity|]. split; [eexists; reflexivity|].
  vm_compute. lia.
Defined.

(** ** Tracks and order *)

(** X6: the encoders read the first track only: the output does not
    change when the later tracks are replaced or dropped, nor does it
    depend on [duration]; the VexFlow output does not depend on [name]
    either. *)
Theorem encoders_read_first_track_only (m : MidiData) (t : Track) (rest : list Track) :
  midi_tracks m = Some (t :: rest) ->
  forall name' duration' rest',
    convertMidiToABC (Some m) =
      convertMidiToABC (Some (mkMidiData (midi_name m) duration' (Some (t :: rest')))) /\
    convertMidiToVexFlow (Some m) =
      convertMidiToVexFlow (Some (mkMidiData name' duration' (Some (t :: rest')))).
Proof.
  intros Ht name' duration' rest'.
  unfold convertMidiToABC, convertMidiToABC_try, convertMidiToVexFlow,
    convertMidiToVexFlow_try.
  cbn [mbind option_bind midi_tracks midi_name]. rewrite Ht. split; reflexivity.
Qed.

Lemma encoders_read_first_track_only_witness :
  convertMidiToVexFlow
    (Some (mkMidiData None None
             (Some [testTrack [testNote "C4" (1 # 2)]; testTrack [testNote "E4" 1]]))) =
  [mkVexFlowNote ["C/4"] "q" 60 0].
Proof.
  destruct (encoders_read_first_track_only
              (mkMidiData None None
                 (Some [testTrack [testNote "C4" (1 # 2)]; testTrack [testNote "E4" 1]]))
              (testTrack [testNote "C4" (1 # 2)]) [testTrack [testNote "E4" 1]]
              eq_refl None None []) as [_ H].
  rewrite H. vm_compute. reflexivity.
Defined.

(** A list that is already ascending in its key is left as it is. *)
Lemma Array_sort_ascending {A} (key : A -> Q) (l : list A) :
  StronglySorted (fun a b => (key a <= key b)%Q) l ->
  Array_sort (byKey key) l = l.
Proof.
  induction 1 as [|x rest Hsorted IH Hall]; [reflexivity|].
  simpl. rewrite IH. destruct rest as [|y rest']; [reflexivity|].
  simpl. inversion Hall as [|? ? Hxy _]; subst.
  apply (byKey_le key) in Hxy. rewrite Hxy. reflexivity.
Qed.

(** X7: when the notes of the first track are already in chronological
    order (equal onsets allowed), both encoders emit them in the order of
    the input. *)
Theorem chronological_notes_keep_their_order (m : MidiData) (t : Track)
    (rest : list Track) :
  midi_tracks m = Some (t :: rest) ->
  StronglySorted (fun a b => (note_time a <= note_time b)%Q) (track_notes t) ->
  convertMidiToVexFlow (Some m) = map vexFlowNote (track_notes t) /\
  (forall tokens,
     mapM convertNoteToABC (track_notes t) = Some tokens ->
     convertMidiToABC (Some m) =
       abcHeader (nameOrDefault (midi_name m)) +:+ tokenBody tokens).
Proof.
  intros Ht Hsorted.
  pose proof (Array_sort_ascending note_time _ Hsorted) as Hid.
  change (byKey note_time) with compareFn in Hid.
  split.
  - rewrite (convertMidiToVexFlow_first_track m t rest Ht), Hid. reflexivity.
  - intros tokens Htok. apply (convertMidiToABC_first_track m t rest tokens Ht).
    rewrite Hid. exact Htok.
Qed.

Lemma chronological_notes_keep_their_order_witness :
  convertMidiToVexFlow (Some twoNotes) =
  [mkVexFlowNote ["C/4"] "q" 60 0; mkVexFlowNote ["D/4"] "q" 62 (1 # 2)].
Proof.
  destruct (chronological_notes_keep_their_order twoNotes
              (testTrack [mkNote "C4" 60 0 (1 # 2) (4 # 5);
                          mkNote "D4" 62 (1 # 2) (1 # 2) (7 # 10)]) [] eq_refl)
    as [H _].
  - repeat constructor. discriminate.
  - exact H.
Defined.

(** X8: the VexFlow output has exactly one descriptor for every note of
    the first track, none dropped and none doubled: it is a permutation
    of the notes' descriptors. *)
Theorem vexflow_descriptors_are_the_notes (m : MidiData) (t : Track)
    (rest : list Track) :
  midi_tracks m = Some (t :: rest) ->
  Permutation (map vexFlowNote (track_notes t)) (convertMidiToVexFlow (Some m)) /\
  length (convertMidiToVexFlow (Some m)) = length (track_notes t).
Proof.
  intros Ht. rewrite (convertMidiToVexFlow_first_track m t rest Ht). split.
  - apply Permutation_map. exact (Array_sort_perm note_time (track_notes t)).
  - rewrite length_map. exact (Array_sort_length note_time (track_notes t)).
Qed.

Lemma vexflow_descriptors_are_the_notes_witness :
  length (convertMidiToVexFlow (Some tiedNotes)) = 4%nat.
Proof.
  destruct (vexflow_descriptors_are_the_notes tiedNotes
              (testTrack [mkNote "G4" 67 1 (1 # 2) (4 # 5);
                          mkNote "C4" 60 0 (1 # 2) (4 # 5);
                          mkNote "E4" 64 1 (1 # 2) (4 # 5);
                          mkNote "D4" 62 0 (1 # 2) (4 # 5)]) [] eq_refl) as [_ H].
  exact H.
Defined.

(** ** What the ABC document always contains *)

(** The loop only appends to the text it starts from. *)
Lemma forEachNote_extends (notes : list Note) (len index : nat)
    (acc result : string) :
  forEachNote notes len index acc = Some result ->
  exists body, result = acc +:+ body.
Proof.
  revert index acc. induction notes as [|note rest IH]; intros index acc H.
  - simpl in H. inversion H; subst. exists "". rewrite append_nil_r. reflexivity.
  - cbn [forEachNote] in H.
    destruct (convertNoteToABC note) as [token|]; [|discriminate].
    cbn [mbind option_bind] in H. apply IH in H as [body Hbody].
    destruct (index <? len - 1)%nat; destruct ((index + 1) mod 8 =? 0)%nat;
      rewrite ?append_assoc in Hbody; eexists; exact Hbody.
Qed.

(** X9: whatever the argument, [null] and notes that throw included, the
    result of [convertMidiToABC] begins with the five header lines of some
    title; in particular it is never the empty string. *)
Theorem abc_document_has_header (arg : option MidiData) :
  (exists title body, convertMidiToABC arg = abcHeader title +:+ body) /\
  convertMidiToABC arg <> "".
Proof.
  assert (H : exists title body, convertMidiToABC arg = abcHeader title +:+ body).
  { unfold convertMidiToABC, convertMidiToABC_try.
    destruct arg as [m|]; cbn [mbind option_bind];
      [|exists "Error", "z4"; reflexivity].
    destruct (midi_tracks m) as [[|t rest]|];
      try (exists (nameOrDefault (midi_name m)), ""; rewrite append_nil_r; reflexivity).
    destruct (forEachNote _ _ _ _) as [result|] eqn:E;
      [|exists "Error", "z4"; reflexivity].
    apply forEachNote_extends in E as [body Hbody].
    exists (nameOrDefault (midi_name m)), body. exact Hbody. }
  split; [exact H|].
  destruct H as (title & body & H). rewrite H. discriminate.
Qed.

(** ** The VexFlow key *)

Lemma slashDigits_noDigits (name : string) :
  noDigits name = true -> slashDigits name = name.
Proof.
  induction name as [|c rest IH]; simpl; [reflexivity|].
  intros H. apply andb_true_iff in H as [Hc Hrest].
  apply negb_true_iff in Hc. rewrite Hc, IH by exact Hrest. reflexivity.
Qed.

Lemma slashDigits_app (pc : string) (d : ascii) (rest : string) :
  noDigits pc = true -> isDigit d = true ->
  slashDigits (pc +:+ String d rest) = pc +:+ "/" +:+ String d rest.
Proof.
  intros Hpc Hd. induction pc as [|c pc' IH].
  - change ("" +:+ String d rest) with (String d rest). simpl. rewrite Hd. reflexivity.
  - rewrite !append_cons. simpl in *.
    apply andb_true_iff in Hpc as [Hc Hrest].
    apply negb_true_iff in Hc. rewrite Hc, IH by exact Hrest. reflexivity.
Qed.

(** X10: the key of a descriptor is the note's name with a slash put
    before its first digit, whatever follows that digit; a name without
    digits is the key as it is. *)
Theorem vexflow_key_slash (note : Note) :
  (forall pc d rest,
     note_name note = pc +:+ String d rest ->
     noDigits pc = true -> isDigit d = true ->
     vf_keys (vexFlowNote note) = [pc +:+ "/" +:+ String d rest]) /\
  (noDigits (note_name note) = true ->
     vf_keys (vexFlowNote note) = [note_name note]).
Proof.
  unfold vexFlowNote. cbn [vf_keys]. split.
  - intros pc d rest Hname Hpc Hd. rewrite Hname, slashDigits_app by assumption.
    reflexivity.
  - intros Hno. rewrite slashDigits_noDigits by exact Hno. reflexivity.
Qed.

Lemma vexflow_key_slash_witness :
  vf_keys (vexFlowNote (testNote "C#5" (1 # 2))) = ["C#/5"] /\
  vf_keys (vexFlowNote (testNote "C-1" (1 # 2))) = ["C-/1"] /\
  vf_keys (vexFlowNote (testNote "C#" (1 # 2))) = ["C#"].
Proof.
  destruct (vexflow_key_slash (testNote "C#5" (1 # 2))) as [H1 _].
  destruct (vexflow_key_slash (testNote "C-1" (1 # 2))) as [H2 _].
  destruct (vexflow_key_slash (testNote "C#" (1 # 2))) as [_ H3].
  split; [apply (H1 "C#" "5"%char ""); reflexivity|].
  split; [apply (H2 "C-" "1"%char ""); reflexivity|].
  apply H3. reflexivity.
Defined.

(** ** One note that throws *)

(** X11: a single note of the first track on which [convertNoteToABC]
    throws turns the whole ABC document into the fallback, wherever the
    note stands, while the VexFlow output still has a descriptor for every
    note. *)
Theorem one_throwing_note_blanks_abc (m : MidiData) (t : Track)
    (rest : list Track) (note : Note) :
  midi_tracks m = Some (t :: rest) ->
  In note (track_notes t) ->
  convertNoteToABC note = None ->
  convertMidiToABC (Some m) = abcFallback /\
  length (convertMidiToVexFlow (Some m)) = length (track_notes t).
Proof.
  intros Ht Hin Hthrow. split.
  - apply (convertMidiToABC_note_throws m t rest Ht).
    destruct (mapM convertNoteToABC (Array_sort compareFn (track_notes t)))
      as [tokens|] eqn:E; [|reflexivity].
    exfalso.
    assert (Hsome : is_Some (mapM convertNoteToABC (Array_sort compareFn (track_notes t))))
      by (rewrite E; eexists; reflexivity).
    apply mapM_is_Some in Hsome.
    apply (Permutation_Forall (Permutation_sym (Array_sort_perm note_time (track_notes t))))
      in Hsome.
    rewrite Forall_forall in Hsome.
    specialize (Hsome note Hin). cbn in Hsome. rewrite Hthrow in Hsome.
    destruct Hsome as [x Hx]. discriminate Hx.
  - rewrite (convertMidiToVexFlow_first_track m t rest Ht), length_map.
    exact (Array_sort_length note_time (track_notes t)).
Qed.

Lemma one_throwing_note_blanks_abc_witness :
  convertMidiToABC
    (Some (mkMidiData (Some "Song") None
             (Some [testTrack [testNote "C4" (1 # 2); testNote "valueOf6" (1 # 2);
                               testNote "E4" (1 # 2)]]))) = abcFallback.
Proof.
  destruct (one_throwing_note_blanks_abc
              (mkMidiData (Some "Song") None
                 (Some [testTrack [testNote "C4" (1 # 2); testNote "valueOf6" (1 # 2);
                                   testNote "E4" (1 # 2)]]))
              (testTrack [testNote "C4" (1 # 2); testNote "valueOf6" (1 # 2);
                          testNote "E4" (1 # 2)]) []
              (testNote "valueOf6" (1 # 2)) eq_refl) as [H _].
  - right. left. reflexivity.
  - vm_compute. reflexivity.
  - exact H.
Defined.

(** * Properties of the API service *)

(** ** Splitting a file name *)

Lemma splitDot_nonempty (s : string) : splitDot s <> [].
Proof.
  induction s as [|c rest IH]; simpl; [discriminate|].
  destruct (c =? ".")%char; [discriminate|].
  destruct (splitDot rest); discriminate.
Qed.

Lemma splitDot_noDot (s : string) : noDot s = true -> splitDot s = [s].
Proof.
  induction s as [|c rest IH]; simpl; [reflexivity|].
  intros H. apply andb_true_iff in H as [Hc Hrest].
  apply negb_true_iff in Hc. rewrite Hc, IH by exact Hrest. reflexivity.
Qed.

(** The segments of [a.b] are the segments of [a] followed by the
    segments of [b]. *)
Lemma splitDot_app (a b : string) :
  splitDot (a +:+ "." +:+ b) = splitDot a ++ splitDot b.
Proof.
  induction a as [|c rest IH].
  - reflexivity.
  - rewrite append_cons. simpl. rewrite IH.
    destruct (c =? ".")%char; [reflexivity|].
    pose proof (splitDot_nonempty rest) as Hne.
    destruct (splitDot rest) as [|segment segments]; [congruence | reflexivity].
Qed.

Lemma pop_app {A} (l1 l2 : list A) : l2 <> [] -> pop (l1 ++ l2) = pop l2.
Proof.
  intros Hne. induction l1 as [|x rest IH]; [reflexivity|].
  simpl. rewrite IH. destruct (rest ++ l2) eqn:E; [|reflexivity].
  apply app_eq_nil in E as [_ E]. congruence.
Qed.

Lemma extension_of_name (stem ext : string) :
  noDot ext = true -> pop (splitDot (stem +:+ "." +:+ ext)) = Some ext.
Proof.
  intros Hext. rewrite splitDot_app, pop_app by apply splitDot_nonempty.
  rewrite splitDot_noDot by exact Hext. reflexivity.
Qed.

Lemma toLowerCase_empty (s : string) : toLowerCase s = "" <-> s = "".
Proof. destruct s; simpl; split; congruence. Qed.

Lemma includes_In (x : string) (array : list string) :
  includes x array = true <-> In x array.
Proof.
  unfold includes. rewrite existsb_exists. split.
  - intros (y & Hin & Heq). apply String.eqb_eq in Heq. subst. exact Hin.
  - intros Hin. exists x. split; [exact Hin | apply String.eqb_refl].
Qed.

(** The size test, in bytes. *)
Lemma size_within_limit (size : N) (maxSizeMB : Q) :
  Qlt_bool maxSizeMB (inject_Z (Z.of_N size) / (1024 * 1024)) = false <->
  (inject_Z (Z.of_N size) <= maxSizeMB * 1048576)%Q.
Proof.
  rewrite Qlt_bool_false_iff.
  assert (E : (inject_Z (Z.of_N size) / (1024 * 1024) ==
               inject_Z (Z.of_N size) * (1 # 1048576))%Q)
    by (unfold Qdiv; reflexivity).
  rewrite E. split; intros H; lra.
Qed.

(** The test after the extension has been found. *)
Lemma isValidAudioFile_extension (f : File) (ext : string)
    (supportedFormats : list string) (maxSizeMB : option Q) :
  pop (splitDot (file_name f)) = Some ext ->
  isValidAudioFile (Some f) supportedFormats maxSizeMB = true <->
  ext <> "" /\ In (toLowerCase ext) supportedFormats /\
  (inject_Z (Z.of_N (file_size f)) <=
   match maxSizeMB with Some x => x | None => 50 end * 1048576)%Q.
Proof.
  intros Hext. unfold isValidAudioFile. rewrite Hext. cbn [option_map].
  destruct (toLowerCase ext) as [|c lowered] eqn:El.
  - apply (proj1 (toLowerCase_empty ext)) in El. subst ext. split; [discriminate|].
    intros [H _]. congruence.
  - assert (Hne : ext <> "").
    { intros ->. discriminate El. }
    destruct (includes (String c lowered) supportedFormats) eqn:Ei; cbn [negb].
    + apply includes_In in Ei.
      destruct (Qlt_bool _ _) eqn:Es.
      * split; [discriminate|]. intros (_ & _ & Hsize).
        apply size_within_limit in Hsize. congruence.
      * apply size_within_limit in Es. tauto.
    + split; [discriminate|]. intros (_ & Hin & _).
      apply includes_In in Hin. congruence.
Qed.

Lemma valid_audio_file_rule_aux (f : File) (stem ext : string)
    (supportedFormats : list string) (maxSizeMB : option Q) :
  file_name f = stem +:+ "." +:+ ext ->
  noDot ext = true ->
  isValidAudioFile (Some f) supportedFormats maxSizeMB = true <->
  ext <> "" /\ In (toLowerCase ext) supportedFormats /\
  (inject_Z (Z.of_N (file_size f)) <=
   match maxSizeMB with Some x => x | None => 50 end * 1048576)%Q.
Proof.
  intros Hname Hext. apply isValidAudioFile_extension.
  rewrite Hname. apply extension_of_name, Hext.
Qed.

(** X12: a file whose name is [stem.ext] is accepted exactly when the part
    after the last dot is not empty, its lower-case form is one of the
    supported formats, and the size is at most the limit, the limit
    itself included (50 MB when no limit is given). *)
Theorem valid_audio_file_rule (f : File) (stem ext : string)
    (supportedFormats : list string) (maxSizeMB : option Q) :
  file_name f = stem +:+ "." +:+ ext ->
  noDot ext = true ->
  isValidAudioFile (Some f) supportedFormats maxSizeMB = true <->
  ext <> "" /\ In (toLowerCase ext) supportedFormats /\
  (inject_Z (Z.of_N (file_size f)) <=
   match maxSizeMB with Some x => x | None => 50 end * 1048576)%Q.
Proof.
  exact (valid_audio_file_rule_aux f stem ext supportedFormats maxSizeMB).
Qed.

Lemma valid_audio_file_rule_witness :
  isValidAudioFile (Some (mkFile "My.Song.WAV" 52428800)) ["wav"; "mp3"] None = true.
Proof.
  apply (valid_audio_file_rule (mkFile "My.Song.WAV" 52428800) "My.Song" "WAV"
           ["wav"; "mp3"] None); [reflexivity | reflexivity |].
  split; [discriminate|]. split; [left; reflexivity | discriminate].
Defined.

(** X13: the edges of the validation: [null] is rejected; a name that ends
    with a dot is rejected whatever the formats are; a name without any
    dot is its own extension, so it is accepted when its lower-case form
    is a supported format. *)
Theorem audio_file_name_edges (supportedFormats : list string) (maxSizeMB : option Q) :
  isValidAudioFile None supportedFormats maxSizeMB = false /\
  (forall f stem, file_name f = stem +:+ "." ->
     isValidAudioFile (Some f) supportedFormats maxSizeMB = false) /\
  (forall f, noDot (file_name f) = true ->
     isValidAudioFile (Some f) supportedFormats maxSizeMB = true <->
     file_name f <> "" /\ In (toLowerCase (file_name f)) supportedFormats /\
     (inject_Z (Z.of_N (file_size f)) <=
      match maxSizeMB with Some x => x | None => 50 end * 1048576)%Q).
Proof.
  split; [reflexivity|]. split.
  - intros f stem Hname.
    destruct (isValidAudioFile (Some f) supportedFormats maxSizeMB) eqn:E; [|reflexivity].
    apply (isValidAudioFile_extension f "") in E.
    + destruct E as [E _]. congruence.
    + rewrite Hname. rewrite <- (append_nil_r (stem +:+ ".")), append_assoc.
      apply extension_of_name. reflexivity.
  - intros f Hno. apply isValidAudioFile_extension.
    rewrite splitDot_noDot by exact Hno. reflexivity.
Qed.

Lemma audio_file_name_edges_witness :
  isValidAudioFile (Some (mkFile "song." 10)) [""; "wav"] None = false /\
  isValidAudioFile (Some (mkFile "wav" 10)) ["wav"] None = true.
Proof.
  destruct (audio_file_name_edges [""; "wav"] None) as (_ & Hdot & _).
  destruct (audio_file_name_edges ["wav"] None) as (_ & _ & Hplain).
  split.
  - apply (Hdot (mkFile "song." 10) "song"). reflexivity.
  - apply (Hplain (mkFile "wav" 10)); [reflexivity|].
    split; [discriminate|]. split; [left; reflexivity | discriminate].
Defined.

(** ** The supported formats *)

Lemma lowerChar_idempotent (c : ascii) : lowerChar (lowerChar c) = lowerChar c.
Proof.
  destruct c as [b0 b1 b2 b3 b4 b5 b6 b7].
  destruct b0, b1, b2, b3, b4, b5, b6, b7; reflexivity.
Qed.

Lemma toLowerCase_idempotent (s : string) :
  toLowerCase (toLowerCase s) = toLowerCase s.
Proof.
  induction s as [|c rest IH]; simpl; [reflexivity|].
  rewrite lowerChar_idempotent, IH. reflexivity.
Qed.

(** Whether a format is written in lower case. *)
Lemma includes_lower_case (x : string) (array : list string) :
  toLowerCase x = x ->
  includes x (List.filter (fun fmt => String.eqb (toLowerCase fmt) fmt) array) =
  includes x array.
Proof.
  intros Hx. unfold includes. induction array as [|y rest IH]; [reflexivity|].
  simpl. destruct (String.eqb (toLowerCase y) y) eqn:Ey; simpl.
  - rewrite IH. reflexivity.
  - rewrite IH. destruct (String.eqb x y) eqn:Exy; [|reflexivity].
    apply String.eqb_eq in Exy. subst y.
    rewrite Hx, String.eqb_refl in Ey. discriminate.
Qed.

(** X14: only the formats written in lower case count: the extension is
    put in lower case before it is looked up, so removing every format
    with a capital letter from the list changes no answer. *)
Theorem only_lower_case_formats_count (file : option File)
    (supportedFormats : list string) (maxSizeMB : option Q) :
  isValidAudioFile file supportedFormats maxSizeMB =
  isValidAudioFile file
    (List.filter (fun fmt => String.eqb (toLowerCase fmt) fmt) supportedFormats)
    maxSizeMB.
Proof.
  unfold isValidAudioFile. destruct file as [f|]; [|reflexivity].
  destruct (pop (splitDot (file_name f))) as [ext|]; [|reflexivity].
  cbn [option_map].
  destruct (toLowerCase ext) as [|c lowered] eqn:El; [reflexivity|].
  rewrite includes_lower_case; [reflexivity|].
  rewrite <- El. apply toLowerCase_idempotent.
Qed.

(** X15: accepting is monotone: a file accepted for some formats and a
    limit is accepted for any list that has these formats and any limit
    that is not smaller. *)
Theorem more_formats_accept_more (file : option File)
    (formats formats' : list string) (limit limit' : Q) :
  isValidAudioFile file formats (Some limit) = true ->
  (forall fmt, In fmt formats -> In fmt formats') ->
  (limit <= limit')%Q ->
  isValidAudioFile file formats' (Some limit') = true.
Proof.
  intros Hvalid Hsub Hle. destruct file as [f|]; [|discriminate Hvalid].
  destruct (pop (splitDot (file_name f))) as [ext|] eqn:Hext.
  - apply (isValidAudioFile_extension f ext _ _ Hext) in Hvalid.
    apply (isValidAudioFile_extension f ext _ _ Hext).
    destruct Hvalid as (Hne & Hin & Hsize).
    split; [exact Hne|]. split; [apply Hsub, Hin|].
    eapply Qle_trans; [exact Hsize|]. lra.
  - unfold isValidAudioFile in Hvalid. rewrite Hext in Hvalid. discriminate Hvalid.
Qed.

Lemma more_formats_accept_more_witness :
  isValidAudioFile (Some (mkFile "a.mp3" 2000000)) ["wav"; "mp3"; "flac"] (Some 50%Q) = true.
Proof.
  apply (more_formats_accept_more (Some (mkFile "a.mp3" 2000000)) ["mp3"]
           ["wav"; "mp3"; "flac"] 2 50).
  - reflexivity.
  - intros fmt [<-|[]]. right. left. reflexivity.
  - discriminate.
Defined.

(** X16: when the request for the formats fails (the fetch or its JSON is
    rejected), the fallback formats and limit accept a file named
    [stem.ext] exactly when [ext] is wav, mp3, flac or m4a in any case of
    letters and the file has at most 52428800 bytes. *)
Theorem fallback_formats_accept (f : File) (stem ext : string)
    (fetched : Settled (Settled Formats)) :
  (forall data, fetched <> Resolved (Resolved data)) ->
  file_name f = stem +:+ "." +:+ ext ->
  noDot ext = true ->
  isValidAudioFile (Some f)
    (supported_formats (getSupportedFormats fetched))
    (Some (max_file_size_mb (getSupportedFormats fetched))) = true <->
  (toLowerCase ext = "wav" \/ toLowerCase ext = "mp3" \/
   toLowerCase ext = "flac" \/ toLowerCase ext = "m4a") /\
  (file_size f <= 52428800)%N.
Proof.
  intros Hfetched Hname Hext.
  assert (Hformats : getSupportedFormats fetched = mkFormats ["wav"; "mp3"; "flac"; "m4a"] 50).
  { destruct fetched as [[data|message]|message]; try reflexivity.
    destruct (Hfetched data). reflexivity. }
  rewrite Hformats. cbn [supported_formats max_file_size_mb].
  rewrite (valid_audio_file_rule_aux f stem ext _ _ Hname Hext).
  split.
  - intros (_ & Hin & Hsize). split.
    + simpl in Hin. intuition congruence.
    + unfold Qle in Hsize. simpl in Hsize. lia.
  - intros (Hin & Hsize). split; [|split].
    + intros ->. simpl in Hin. intuition discriminate.
    + simpl. intuition congruence.
    + unfold Qle. simpl. lia.
Qed.

Lemma fallback_formats_accept_witness :
  isValidAudioFile (Some (mkFile "take1.FLAC" 52428800))
    (supported_formats (getSupportedFormats (Rejected "Failed to fetch")))
    (Some (max_file_size_mb (getSupportedFormats (Rejected "Failed to fetch")))) = true.
Proof.
  apply (fallback_formats_accept (mkFile "take1.FLAC" 52428800) "take1" "FLAC"
           (Rejected "Failed to fetch")).
  - intros data H. discriminate H.
  - reflexivity.
  - reflexivity.
  - split; [right; right; left; reflexivity | vm_compute; discriminate].
Defined.

(** ** transcribeAudio *)

Lemma head_of_name (stem rest : string) :
  noDot stem = true ->
  exists segments, splitDot (stem +:+ "." +:+ rest) = stem :: segments.
Proof.
  intros Hstem. rewrite splitDot_app, splitDot_noDot by exact Hstem.
  eexists. reflexivity.
Qed.

(** X17: whenever [transcribeAudio] succeeds (a response with [ok]
    whose blob can be read, whatever else the response holds), the name
    under which the MIDI file is returned is the part of the audio file's
    name before its first dot, followed by [.mid]: every later part of
    the name is dropped, not only the extension.  A name without a dot is
    kept whole. *)
Theorem midi_filename_cuts_at_first_dot (audioFile : File)
    (response : TranscribeResponse) (midiBlob : Blob) :
  response_ok response = true ->
  response_blob response = Resolved midiBlob ->
  (forall stem rest,
     file_name audioFile = stem +:+ "." +:+ rest -> noDot stem = true ->
     transcribeAudio audioFile (Resolved response) =
     Success midiBlob (stem +:+ ".mid")) /\
  (noDot (file_name audioFile) = true ->
     transcribeAudio audioFile (Resolved response) =
     Success midiBlob (file_name audioFile +:+ ".mid")).
Proof.
  intros Hok Hblob. unfold transcribeAudio, midiFilenameOf.
  rewrite Hok, Hblob. split.
  - intros stem rest Hname Hstem. rewrite Hname.
    destruct (head_of_name stem rest Hstem) as [segments ->]. reflexivity.
  - intros Hno. rewrite splitDot_noDot by exact Hno. reflexivity.
Qed.

Lemma midi_filename_cuts_at_first_dot_witness :
  transcribeAudio (mkFile "my.song.wav" 100)
    (Resolved (mkTranscribeResponse true (Resolved "MThd") (Resolved None))) =
  Success "MThd" "my.mid" /\
  transcribeAudio (mkFile "take" 100)
    (Resolved (mkTranscribeResponse true (Resolved "MThd") (Rejected "Unexpected token"))) =
  Success "MThd" "take.mid".
Proof.
  destruct (midi_filename_cuts_at_first_dot (mkFile "my.song.wav" 100)
              (mkTranscribeResponse true (Resolved "MThd") (Resolved None)) "MThd"
              eq_refl eq_refl) as [H1 _].
  destruct (midi_filename_cuts_at_first_dot (mkFile "take" 100)
              (mkTranscribeResponse true (Resolved "MThd") (Rejected "Unexpected token"))
              "MThd" eq_refl eq_refl) as [_ H2].
  split.
  - apply (H1 "my" "song.wav"); reflexivity.
  - apply H2. reflexivity.
Defined.

(** X18: [transcribeAudio] succeeds exactly when the request resolves to
    a response with [ok] whose blob can be read; in every other case the
    result carries an error text that is not empty, and the name of a
    success ends with [.mid]. *)
Theorem transcribeAudio_outcomes (audioFile : File) (fetched : Settled TranscribeResponse) :
  ((exists midiFile filename, transcribeAudio audioFile fetched = Success midiFile filename) <->
   (exists response,
      fetched = Resolved response /\ response_ok response = true /\
      exists midiBlob, response_blob response = Resolved midiBlob)) /\
  (forall midiFile filename,
     transcribeAudio audioFile fetched = Success midiFile filename ->
     (exists first, filename = first +:+ ".mid") /\
     (exists response,
        fetched = Resolved response /\ response_blob response = Resolved midiFile)) /\
  (forall error, transcribeAudio audioFile fetched = Failure error -> error <> "").
Proof.
  assert (Hor : forall x fallback, fallback <> "" -> stringOr x fallback <> "").
  { intros [|c x] fallback Hf; [exact Hf | discriminate]. }
  unfold transcribeAudio, midiFilenameOf.
  destruct fetched as [response|message].
  - destruct (response_ok response) eqn:Hok.
    + destruct (response_blob response) as [midiBlob|message] eqn:Hblob.
      * split; [|split].
        -- split; [intros _; exists response; eauto|intros _; eauto].
        -- intros midiFile filename H. inversion H; subst.
           pose proof (splitDot_nonempty (file_name audioFile)) as Hne.
           destruct (splitDot (file_name audioFile)) as [|first segments]; [congruence|].
           split; [exists first; reflexivity|]. exists response.
           split; [reflexivity | exact Hblob].
        -- intros error H. discriminate H.
      * split; [|split].
        -- split; [intros (? & ? & H); discriminate H|].
           intros (r & Hr & _ & b & Hb). inversion Hr; subst. congruence.
        -- intros ? ? H. discriminate H.
        -- intros error H. inversion H; subst. apply Hor. discriminate.
    + split; [|split].
      * split.
        -- intros (? & ? & H).
           destruct (response_json response) as [[?|]|?]; discriminate H.
        -- intros (r & Hr & Hok' & _). inversion Hr; subst. congruence.
      * intros ? ? H. destruct (response_json response) as [[?|]|?]; discriminate H.
      * intros error H.
        destruct (response_json response) as [[e|]|msg]; inversion H; subst;
          try apply Hor; discriminate.
  - split; [|split].
    + split; [intros (? & ? & H); discriminate H|].
      intros (r & Hr & _). discriminate Hr.
    + intros ? ? H. discriminate H.
    + intros error H. inversion H; subst. apply Hor. discriminate.
Qed.

Lemma transcribeAudio_outcomes_witness :
  transcribeAudio (mkFile "a.wav" 1) (Rejected "") = Failure "Network error occurred" /\
  "Network error occurred" <> "".
Proof.
  destruct (transcribeAudio_outcomes (mkFile "a.wav" 1) (Rejected "")) as (_ & _ & H).
  split; [reflexivity|]. apply H. reflexivity.
Defined.

(** ** getErrorMessage *)

Lemma errorMessages_entry (key message : string) :
  errorMessages !! key = Some message ->
  message <> "" /\
  (message = "Unable to connect to the transcription service" ->
   key = "Network error occurred").
Proof.
  intros H. unfold errorMessages in H. apply elem_of_list_to_map_2 in H.
  repeat (apply elem_of_cons in H as [H|H];
          [inversion H; subst; split; [discriminate | try discriminate; reflexivity]|]).
  apply elem_of_nil in H. contradiction.
Qed.

(** X19: for every error text that is not the name of an inherited
    property, [getErrorMessage] returns a text that is not empty: the
    entry of the table when the text is one of its five keys, and the
    general message for any other text. *)
Theorem getErrorMessage_is_a_message (error : string) :
  Object_prototype !! error = None ->
  exists message,
    getErrorMessage error = VString message /\ message <> "" /\
    (errorMessages !! error = Some message \/
     (errorMessages !! error = None /\
      message = "An unexpected error occurred. Please try again.")).
Proof.
  intros Hinh. unfold getErrorMessage, errorMessages_get.
  destruct (errorMessages !! error) as [message|] eqn:E.
  - destruct (errorMessages_entry _ _ E) as [Hne _].
    exists message. rewrite orElse_nonempty by exact Hne. auto.
  - rewrite Hinh. eexists. split; [reflexivity|]. split; [discriminate|].
    right. split; reflexivity.
Qed.

Lemma getErrorMessage_is_a_message_witness :
  getErrorMessage "File too large" =
    VString "Please select a smaller audio file (max 50MB)" /\
  getErrorMessage "Unknown error" =
    VString "An unexpected error occurred. Please try again.".
Proof.
  destruct (getErrorMessage_is_a_message "File too large" eq_refl)
    as (m1 & H1 & _ & [E1|[E1 _]]); [|discriminate E1].
  destruct (getErrorMessage_is_a_message "Unknown error" eq_refl)
    as (m2 & H2 & _ & [E2|[_ E2]]); [discriminate E2|].
  split.
  - rewrite H1. f_equal. vm_compute in E1. congruence.
  - rewrite H2, E2. reflexivity.
Defined.

(** X20: when the request of [transcribeAudio] is rejected, the user is
    told that the service cannot be reached only if the rejection has no
    message (or the very text ["Network error occurred"]); a rejection
    with any other message, as a browser's fetch gives, ends in another
    text of [getErrorMessage]. *)
Theorem connection_message_needs_empty_rejection (audioFile : File)
    (message error : string) :
  Object_prototype !! message = None ->
  transcribeAudio audioFile (Rejected message) = Failure error ->
  getErrorMessage error = VString "Unable to connect to the transcription service" <->
  message = "" \/ message = "Network error occurred".
Proof.
  intros Hinh Hfail. unfold transcribeAudio in Hfail. inversion Hfail; subst error.
  split.
  - intros H. destruct message as [|c rest]; [left; reflexivity|]. right.
    cbn [stringOr] in H.
    destruct (getErrorMessage_is_a_message _ Hinh) as (m & Hm & _ & [E|[_ E]]).
    + rewrite Hm in H. inversion H; subst m.
      exact (proj2 (errorMessages_entry _ _ E) eq_refl).
    + rewrite Hm, E in H. discriminate H.
  - intros [-> | ->]; reflexivity.
Qed.

Lemma connection_message_needs_empty_rejection_witness :
  getErrorMessage "Failed to fetch" <>
  VString "Unable to connect to the transcription service".
Proof.
  intros H.
  apply (connection_message_needs_empty_rejection (mkFile "a.wav" 1)
           "Failed to fetch" "Failed to fetch" eq_refl eq_refl) in H.
  destruct H as [H|H]; discriminate H.
Defined.

(** ** parseMidiBlob *)

Lemma copyNote_id (note : Note) : copyNote note = note.
Proof. destruct note; reflexivity. Qed.

Lemma copyTrack_id (track : Track) : copyTrack track = track.
Proof.
  destruct track as [name instrument notes]. unfold copyTrack. cbn. f_equal.
  induction notes as [|note rest IH]; [reflexivity|].
  simpl. rewrite copyNote_id, IH. reflexivity.
Qed.

(** X21: [parseMidiBlob] resolves exactly when the blob decodes to an
    object with a track list, and then to that object, no field of the
    model changed; in every other case it is rejected with the one
    message ["Failed to parse MIDI file"], which [getErrorMessage] turns
    into the general message. *)
Theorem parseMidiBlob_outcomes (decoded : option MidiData) :
  (forall parsed, parseMidiBlob decoded = Resolved parsed <->
     decoded = Some parsed /\ is_Some (midi_tracks parsed)) /\
  (forall message, parseMidiBlob decoded = Rejected message ->
     message = "Failed to parse MIDI file" /\
     getErrorMessage message =
       VString "An unexpected error occurred. Please try again.").
Proof.
  assert (Hcopy : forall tracks, map copyTrack tracks = tracks).
  { induction tracks as [|t rest IH]; [reflexivity|].
    simpl. rewrite copyTrack_id, IH. reflexivity. }
  unfold parseMidiBlob. destruct decoded as [[name duration [tracks|]]|];
    cbn [midi_tracks midi_name midi_duration].
  - rewrite Hcopy. split.
    + intros parsed. split.
      * intros H. inversion H; subst. split; [reflexivity | eexists; reflexivity].
      * intros [H _]. inversion H; subst. reflexivity.
    + intros message H. discriminate H.
  - split.
    + intros parsed. split; [discriminate|].
      intros [H [x Hx]]. inversion H; subst. discriminate Hx.
    + intros message H. inversion H; subst. split; reflexivity.
  - split.
    + intros parsed. split; [discriminate|]. intros [H _]. discriminate H.
    + intros message H. inversion H; subst. split; reflexivity.
Qed.

Lemma parseMidiBlob_outcomes_witness :
  parseMidiBlob (Some twoNotes) = Resolved twoNotes /\
  getErrorMessage "Failed to parse MIDI file" =
    VString "An unexpected error occurred. Please try again.".
Proof.
  destruct (parseMidiBlob_outcomes (Some twoNotes)) as [Hok _].
  destruct (parseMidiBlob_outcomes None) as [_ Hfail].
  split.
  - apply (Hok twoNotes). split; [reflexivity | eexists; reflexivity].
  - apply (Hfail "Failed to parse MIDI file"). reflexivity.
Defined.

(** * Properties of the components *)

(** ** The application state *)

Lemma getErrorMessage_truthy (error : string) : truthy (getErrorMessage error) = true.
Proof.
  unfold getErrorMessage, errorMessages_get.
  destruct (errorMessages !! error) as [message|] eqn:E.
  - destruct (errorMessages_entry _ _ E) as [Hne _].
    rewrite orElse_nonempty by exact Hne. destruct message; [congruence | reflexivity].
  - destruct (Object_prototype !! error); reflexivity.
Qed.

Lemma midiFilenameOf_nonempty (audioFile : File) :
  exists c rest, midiFilenameOf audioFile = String c rest.
Proof.
  unfold midiFilenameOf.
  destruct (splitDot (file_name audioFile)) as [|[|c first] segments];
    eexists; eexists; reflexivity.
Qed.

Lemma handleFileUpload_done (file : File)
    (fetched : Settled TranscribeResponse) (decode : Blob -> option MidiData)
    (s : AppState) :
  st_isTranscribing (handleFileUpload file fetched decode s) = false /\
  st_currentFile (handleFileUpload file fetched decode s) = Some file.
Proof.
  unfold handleFileUpload.
  destruct (transcribeAudio file fetched) as [midiBlob filename|error];
    [destruct (parseMidiBlob (decode midiBlob))|]; split; reflexivity.
Qed.

(** X22: when [handleFileUpload] has run, the application is no longer
    transcribing and shows either a result or an error, never both and
    never neither: either the parsed MIDI data with its summary, no
    error, and a download of the received blob under a name that is not
    empty; or no MIDI data, no summary and a truthy error. *)
Theorem handleFileUpload_result_or_error (file : File)
    (fetched : Settled TranscribeResponse) (decode : Blob -> option MidiData)
    (s : AppState) :
  st_isTranscribing (handleFileUpload file fetched decode s) = false /\
  st_currentFile (handleFileUpload file fetched decode s) = Some file /\
  ((exists parsed midiBlob filename,
      st_midiData (handleFileUpload file fetched decode s) = Some parsed /\
      st_midiSummary (handleFileUpload file fetched decode s) =
        Some (getMidiSummary (Some parsed)) /\
      st_error (handleFileUpload file fetched decode s) = VString "" /\
      transcribeAudio file fetched = Success midiBlob filename /\
      parseMidiBlob (decode midiBlob) = Resolved parsed /\
      handleDownload (handleFileUpload file fetched decode s) =
        Some (midiBlob, filename)) \/
   (st_midiData (handleFileUpload file fetched decode s) = None /\
    st_midiSummary (handleFileUpload file fetched decode s) = None /\
    truthy (st_error (handleFileUpload file fetched decode s)) = true)).
Proof.
  unfold handleFileUpload.
  destruct (transcribeAudio file fetched) as [midiBlob filename|error] eqn:Et.
  - destruct (parseMidiBlob (decode midiBlob)) as [parsed|message] eqn:Ep;
      cbn [st_isTranscribing st_currentFile st_midiData st_midiSummary st_error
           st_midiBlob st_midiFilename].
    + split; [reflexivity|]. split; [reflexivity|]. left.
      exists parsed, midiBlob, filename.
      split; [reflexivity|]. split; [reflexivity|]. split; [reflexivity|].
      split; [reflexivity|]. split; [exact Ep|].
      assert (Hname : exists c rest, filename = String c rest).
      { unfold transcribeAudio in Et.
        destruct fetched as [response|?]; [|discriminate Et].
        destruct (response_ok response);
          [|destruct (response_json response) as [[?|]|?]; discriminate Et].
        destruct (response_blob response); [|discriminate Et].
        inversion Et; subst. apply midiFilenameOf_nonempty. }
      destruct Hname as (c & rest & ->). reflexivity.
    + split; [reflexivity|]. split; [reflexivity|]. right.
      repeat split. apply getErrorMessage_truthy.
  - cbn [st_isTranscribing st_currentFile st_midiData st_midiSummary st_error].
    split; [reflexivity|]. split; [reflexivity|]. right.
    repeat split. apply getErrorMessage_truthy.
Qed.

(** X23: a transcription that fails leaves the blob and the file name of
    the state as they were: what [handleDownload] would download after
    the failure is what it would have downloaded before the upload. *)
Theorem failed_upload_keeps_download (file : File)
    (fetched : Settled TranscribeResponse) (decode : Blob -> option MidiData)
    (s : AppState) (error : string) :
  transcribeAudio file fetched = Failure error ->
  st_midiBlob (handleFileUpload file fetched decode s) = st_midiBlob s /\
  st_midiFilename (handleFileUpload file fetched decode s) = st_midiFilename s /\
  handleDownload (handleFileUpload file fetched decode s) = handleDownload s /\
  st_error (handleFileUpload file fetched decode s) = getErrorMessage error.
Proof.
  intros Hfail. unfold handleFileUpload, handleDownload. rewrite Hfail.
  repeat split.
Qed.

Lemma failed_upload_keeps_download_witness :
  handleDownload
    (handleFileUpload (mkFile "b.wav" 9) (Rejected "") (fun _ => None)
       (mkAppState false None None (Some "MThd") "a.mid" (VString "") None)) =
  Some ("MThd", "a.mid").
Proof.
  destruct (failed_upload_keeps_download (mkFile "b.wav" 9) (Rejected "") (fun _ => None)
              (mkAppState false None None (Some "MThd") "a.mid" (VString "") None)
              "Network error occurred" eq_refl) as (_ & _ & H & _).
  rewrite H. reflexivity.
Defined.

(** X24: [handleReset] after a finished upload gives the initial state
    back, whatever the upload did; and [handleReset] never changes
    whether a transcription is running. *)
Theorem reset_after_upload_is_initial (file : File)
    (fetched : Settled TranscribeResponse) (decode : Blob -> option MidiData)
    (s : AppState) :
  handleReset (handleFileUpload file fetched decode s) = initialAppState /\
  st_isTranscribing (handleReset s) = st_isTranscribing s /\
  handleDownload (handleReset s) = None.
Proof.
  destruct (handleFileUpload_done file fetched decode s) as [Hdone _].
  unfold handleReset. rewrite Hdone. repeat split.
Qed.

(** ** The backend status *)

(** X25: after a status check the text is ["Backend Online"] exactly
    when the health request resolved to a response with [ok] whose JSON
    body has the status ["healthy"]; in every other case (rejection, a
    status code outside 2xx, unreadable JSON, another status) it is
    ["Backend Offline"]. *)
Theorem status_after_check (fetched : Settled HealthResponse) :
  (getStatusText (checkStatus fetched) = "Backend Online" <->
   exists response,
     fetched = Resolved response /\ health_ok response = true /\
     health_json response = Resolved (Some "healthy")) /\
  (getStatusText (checkStatus fetched) = "Backend Online" \/
   getStatusText (checkStatus fetched) = "Backend Offline").
Proof.
  unfold checkStatus, checkBackendHealth.
  destruct fetched as [[ok json]|message]; cbn [health_ok health_json].
  - destruct ok; cbn [negb].
    + destruct json as [[status|]|message].
      * destruct (String.eqb status "healthy") eqn:E.
        -- apply String.eqb_eq in E. subst status. split; [|left; reflexivity].
           split; [intros _|reflexivity]. eexists. repeat split.
        -- split; [|right; reflexivity]. split; [discriminate|].
           intros (r & Hr & _ & Hj). inversion Hr; subst. cbn in Hj.
           inversion Hj; subst. rewrite String.eqb_refl in E. discriminate E.
      * split; [|right; reflexivity]. split; [discriminate|].
        intros (r & Hr & _ & Hj). inversion Hr; subst. discriminate Hj.
      * split; [|right; reflexivity]. split; [discriminate|].
        intros (r & Hr & _ & Hj). inversion Hr; subst. discriminate Hj.
    + split; [|right; reflexivity]. split; [discriminate|].
      intros (r & Hr & Hok & _). inversion Hr; subst. discriminate Hok.
  - split; [|right; reflexivity]. split; [discriminate|].
    intros (r & Hr & _). discriminate Hr.
Qed.

(** ** The VexFlow viewer *)

Lemma StronglySorted_app_le {A} (R : A -> A -> Prop) (l1 l2 : list A) :
  StronglySorted R (l1 ++ l2) ->
  forall a b, In a l1 -> In b l2 -> R a b.
Proof.
  induction l1 as [|x rest IH]; intros Hs a b Ha Hb; [destruct Ha|].
  simpl in Hs. inversion Hs as [|? ? Hrest Hall]; subst.
  destruct Ha as [<-|Ha].
  - rewrite Forall_forall in Hall. apply Hall. apply in_or_app. right. exact Hb.
  - exact (IH Hrest a b Ha Hb).
Qed.

Lemma vexFlowDuration_nonempty (d : Q) : stringOr (vexFlowDuration d) "q" = vexFlowDuration d.
Proof.
  unfold vexFlowDuration.
  destruct (Qlt_bool d (1 # 4)); [reflexivity|].
  destruct (Qlt_bool d (1 # 2)); [reflexivity|].
  destruct (Qlt_bool d 1); [reflexivity|].
  destruct (Qlt_bool d 2); reflexivity.
Qed.

(** X26: of the descriptors of [convertMidiToVexFlow] the viewer draws
    the first eight, which are the earliest notes of the first track: no
    drawn note starts after a note that is left out.  Each is drawn with
    the duration code of its descriptor; the default ["q"] is never
    used. *)
Theorem viewer_draws_the_earliest_notes (m : MidiData) (t : Track) (rest : list Track) :
  midi_tracks m = Some (t :: rest) ->
  staveNotes (convertMidiToVexFlow (Some m)) =
    map (fun note => staveNoteOf (vexFlowNote note))
      (firstn 8 (Array_sort compareFn (track_notes t))) /\
  length (staveNotes (convertMidiToVexFlow (Some m))) =
    Nat.min 8 (length (track_notes t)) /\
  (forall a b,
     In a (firstn 8 (Array_sort compareFn (track_notes t))) ->
     In b (skipn 8 (Array_sort compareFn (track_notes t))) ->
     (note_time a <= note_time b)%Q) /\
  (forall note,
     sn_duration (staveNoteOf (vexFlowNote note)) =
     vexFlowDuration (note_duration note)).
Proof.
  intros Ht. unfold staveNotes.
  rewrite (convertMidiToVexFlow_first_track m t rest Ht).
  rewrite firstn_map, map_map. split; [reflexivity|]. split; [|split].
  - rewrite length_map, length_firstn.
    rewrite (Array_sort_length note_time). reflexivity.
  - intros a b Ha Hb.
    pose proof (Array_sort_sorted note_time (track_notes t)) as Hs.
    change (byKey note_time) with compareFn in Hs.
    rewrite <- (firstn_skipn 8 (Array_sort compareFn (track_notes t))) in Hs.
    exact (StronglySorted_app_le _ _ _ Hs a b Ha Hb).
  - intros note. unfold staveNoteOf, vexFlowNote. cbn [sn_duration vf_duration].
    apply vexFlowDuration_nonempty.
Qed.

Lemma viewer_draws_the_earliest_notes_witness :
  length (staveNotes (convertMidiToVexFlow (Some tiedNotes))) = 4%nat.
Proof.
  destruct (viewer_draws_the_earliest_notes tiedNotes
              (testTrack [mkNote "G4" 67 1 (1 # 2) (4 # 5);
                          mkNote "C4" 60 0 (1 # 2) (4 # 5);
                          mkNote "E4" 64 1 (1 # 2) (4 # 5);
                          mkNote "D4" 62 0 (1 # 2) (4 # 5)]) [] eq_refl)
    as (_ & H & _).
  exact H.
Defined.
